(** * Face-recognition front-end: overlay renderer, polling loop, registration

    A shallow embedding of the browser scripts of the repository:
    the multi-result recognition page (polling loop and overlay renderer)
    and [static/register.js] (registration form).

    Conventions of the embedding.
    - A JavaScript string is the list of its UTF-16 code units.
    - A JavaScript number is an exact rational ([Q]); values produced by
      [Math.floor] and [Math.round] are integers ([Z]).  Binary64 rounding,
      NaN and the infinities are outside the model, so statements about
      scaling assume non-zero source dimensions.
    - The 32-bit accumulator of [colorForId] is a [Z] with its wrap-around
      written out ([>>> 0] is reduction modulo 2^32; the intermediate
      [hash * 31 + c] stays below 2^53 and is exact in the source too).
    - An [async] function is cut at its [await]s.  Both scripts touch shared
      state only before their first [await] and after their last one, so a
      cycle is two atomic steps: its start, and its completion with the
      outcome of the network round-trip as an input. *)

From Stdlib Require Import ZArith QArith Qround Qminmax Qabs.
From Stdlib Require Import List Bool String Ascii DecimalString Lia Lqa.
Import ListNotations.

Local Open Scope Z_scope.

(** ** JavaScript values used by the scripts *)

Module JS.

Definition jsstring := list Z.

(** A string literal of the source (ASCII text). *)
Definition lit (s : string) : jsstring :=
  map (fun a => Z.of_N (N_of_ascii a)) (list_ascii_of_string s).

(** Truthiness of an optional string field: absent, null and the empty
    string are falsy. *)
Definition truthy (o : option jsstring) : bool :=
  match o with
  | Some (_ :: _) => true
  | _ => false
  end.

(** [o || ''] *)
Definition orEmpty (o : option jsstring) : jsstring :=
  match o with
  | Some s => s
  | None => []
  end.

(** [o || fallback] *)
Definition orElse (o : option jsstring) (fallback : jsstring) : jsstring :=
  match o with
  | Some (c :: s) => c :: s
  | _ => fallback
  end.

Definition Math_floor (q : Q) : Z := Qfloor q.

(** [Math.round]: nearest integer, ties towards +infinity. *)
Definition Math_round (q : Q) : Z := Qfloor (q + (1 # 2))%Q.

(** [n >>> 0] on an integral number. *)
Definition toUint32 (n : Z) : Z := n mod 2 ^ 32.

(** [a % b] on integers: the remainder has the sign of the dividend. *)
Definition jsrem (a b : Z) : Z := Z.rem a b.

(** WhiteSpace and LineTerminator code units, as stripped by
    [String.prototype.trim]. *)
Definition isWhiteSpace (c : Z) : bool :=
  existsb (Z.eqb c)
    [9; 10; 11; 12; 13; 32; 160; 5760; 8232; 8233; 8239; 8287; 12288; 65279]
  || ((8192 <=? c) && (c <=? 8202)).

Fixpoint trimStart (s : jsstring) : jsstring :=
  match s with
  | [] => []
  | c :: s' => if isWhiteSpace c then trimStart s' else s
  end.

Definition trim (s : jsstring) : jsstring :=
  rev (trimStart (rev (trimStart s))).

End JS.

Import JS.

(** ** The recognition page: overlay renderer and polling loop *)

Module Overlay.

(** The [bbox] field of a result, as [Array.isArray] and [.length] see it. *)
Inductive bboxField :=
| BboxAbsent
| BboxNotArray
| BboxArray (coords : list Q).

Record result := {
  name : jsstring;
  personnel_id : option jsstring;
  recognized : bool;
  score : option Q;
  bbox : bboxField;
  face_image_url : option jsstring;
  recognized_at : option jsstring
}.

(** The parsed body of [/api/recognize].  [results] is [None] when the
    field is not an array; [image_size] is [None] when it is not an array
    of length 2. *)
Record recognizeData := {
  results : option (list result);
  image_size : option (Q * Q)
}.

(** CSS colours assigned to [strokeStyle] and [fillStyle]:
    [hsl h s l] is the text [hsl(h, s%, l%)]. *)
Inductive cssColor :=
| hsl (hue sat light : Z)
| rgba (r g b : Z) (a : Q)
| hex (rgb : Z).

(** Calls that paint on the 2d context of the [draw] canvas, with the
    context properties in force at the call. *)
Inductive drawop :=
| strokeRect (strokeStyle : cssColor) (lineWidth : Z) (x y w h : Z)
| fillRect (fillStyle : cssColor) (x : Q) (y : Z) (w : Q) (h : Z)
| fillText (fillStyle : cssColor) (fontPx : Z) (text : jsstring) (x : Q) (y : Z).

(** The elements of the page the script writes to.  [thumbWrap], [lastFace]
    and [lastFaceTime] are guarded by [if (el)] in the source: [None] is a
    page without the element.  [thumbWrap = Some true] is the class
    [hidden] being set. *)
Record page := {
  toggleText : jsstring;
  currentName : jsstring;
  currentScore : jsstring;
  message : jsstring;
  messageClass : jsstring;
  thumbWrap : option bool;
  lastFace : option (option jsstring);
  lastFaceTime : option jsstring;
  draw_width : Z;
  draw_height : Z;
  surface : list drawop
}.

Definition set_toggleText (v : jsstring) (p : page) : page :=
  {| toggleText := v; currentName := currentName p;
     currentScore := currentScore p; message := message p;
     messageClass := messageClass p;
     thumbWrap := thumbWrap p; lastFace := lastFace p;
     lastFaceTime := lastFaceTime p; draw_width := draw_width p;
     draw_height := draw_height p; surface := surface p |}.

Definition set_current (n sc : jsstring) (p : page) : page :=
  {| toggleText := toggleText p; currentName := n;
     currentScore := sc; message := message p;
     messageClass := messageClass p;
     thumbWrap := thumbWrap p; lastFace := lastFace p;
     lastFaceTime := lastFaceTime p; draw_width := draw_width p;
     draw_height := draw_height p; surface := surface p |}.

Definition set_thumbWrap (v : option bool) (p : page) : page :=
  {| toggleText := toggleText p; currentName := currentName p;
     currentScore := currentScore p; message := message p;
     messageClass := messageClass p;
     thumbWrap := v; lastFace := lastFace p;
     lastFaceTime := lastFaceTime p; draw_width := draw_width p;
     draw_height := draw_height p; surface := surface p |}.

Definition set_lastFace (v : option (option jsstring)) (p : page) : page :=
  {| toggleText := toggleText p; currentName := currentName p;
     currentScore := currentScore p; message := message p;
     messageClass := messageClass p;
     thumbWrap := thumbWrap p; lastFace := v;
     lastFaceTime := lastFaceTime p; draw_width := draw_width p;
     draw_height := draw_height p; surface := surface p |}.

Definition set_lastFaceTime (v : option jsstring) (p : page) : page :=
  {| toggleText := toggleText p; currentName := currentName p;
     currentScore := currentScore p; message := message p;
     messageClass := messageClass p;
     thumbWrap := thumbWrap p; lastFace := lastFace p;
     lastFaceTime := v; draw_width := draw_width p;
     draw_height := draw_height p; surface := surface p |}.

Definition set_surface (v : list drawop) (p : page) : page :=
  {| toggleText := toggleText p; currentName := currentName p;
     currentScore := currentScore p; message := message p;
     messageClass := messageClass p;
     thumbWrap := thumbWrap p; lastFace := lastFace p;
     lastFaceTime := lastFaceTime p; draw_width := draw_width p;
     draw_height := draw_height p; surface := v |}.

Definition set_message (text cls : jsstring) (p : page) : page :=
  {| toggleText := toggleText p; currentName := currentName p;
     currentScore := currentScore p; message := text;
     messageClass := cls;
     thumbWrap := thumbWrap p; lastFace := lastFace p;
     lastFaceTime := lastFaceTime p; draw_width := draw_width p;
     draw_height := draw_height p; surface := surface p |}.

(** [dctx.clearRect(0, 0, draw.width, draw.height)] *)
Definition clearRect (p : page) : page := set_surface [] p.

(** [draw.width = w; draw.height = h]: assigning a canvas dimension also
    resets its bitmap. *)
Definition resize (w h : Z) (p : page) : page :=
  {| toggleText := toggleText p; currentName := currentName p;
     currentScore := currentScore p; message := message p;
     messageClass := messageClass p;
     thumbWrap := thumbWrap p; lastFace := lastFace p;
     lastFaceTime := lastFaceTime p; draw_width := w;
     draw_height := h; surface := [] |}.

(** *** [colorForId] (lines 138-146) *)

(** The [for] loop, by index: [n] iterations remain, [i] is the loop
    variable, [key.charCodeAt(i)] is the [i]-th code unit. *)
Fixpoint colorForId_loop (key : jsstring) (n : nat) (i : nat) (hash : Z) : Z :=
  match n with
  | O => hash
  | S n' =>
      match nth_error key i with
      | Some c => colorForId_loop key n' (S i) (toUint32 (hash * 31 + c))
      | None => hash
      end
  end.

Definition colorForId_hash (key : jsstring) : Z :=
  colorForId_loop key (List.length key) 0%nat 0.

Definition colorForId (key : jsstring) : cssColor :=
  let hue := jsrem (colorForId_hash key) 360 in
  hsl hue 80 55.

(** [`${r.name}|${r.personnel_id || ''}`] *)
Definition identityKey (r : result) : jsstring :=
  name r ++ lit "|" ++ orEmpty (personnel_id r).

(** [r.recognized ? colorForId(identityKey) : 'hsl(0, 0%, 75%)'] *)
Definition stroke (r : result) : cssColor :=
  if recognized r then colorForId (identityKey r) else hsl 0 0 75.

(** *** Coordinate mapping (lines 150-156) *)

Record box := { x1 : Z; y1 : Z; x2 : Z; y2 : Z; w : Z; h : Z }.

Definition mapBox (scaleX scaleY : Q) (bx1 by1 bx2 by2 : Q) : box :=
  let x1 := Z.max 0 (Math_floor (bx1 * scaleX)%Q) in
  let y1 := Z.max 0 (Math_floor (by1 * scaleY)%Q) in
  let x2 := Z.max 0 (Math_floor (bx2 * scaleX)%Q) in
  let y2 := Z.max 0 (Math_floor (by2 * scaleY)%Q) in
  let w := Z.max 0 (x2 - x1) in
  let h := Z.max 0 (y2 - y1) in
  {| x1 := x1; y1 := y1; x2 := x2; y2 := y2; w := w; h := h |}.

(** *** Line width of the strokes (line 136) *)

Definition lineWidth (drawW drawH : Z) : Z :=
  Z.max 2 (Math_round (inject_Z (Z.min drawW drawH) / 300)%Q).

(** *** Label placement (lines 160-173) *)

Record labelBox := { tx : Q; ty : Z; textW : Q; textH : Z; fontPx : Z }.

(** [measure px] is [dctx.measureText(label).width] under the font of
    [px] pixels just assigned; [parseInt(dctx.font, 10)] reads back the
    pixel size that was assigned. *)
Definition placeLabel (drawW : Z) (lw : Z) (b : box) (measure : Z -> Q)
  : labelBox :=
  let fontPx := Z.max 14 (Math_round (inject_Z (h b) * (8 # 100))%Q) in
  let textW := (measure fontPx + 10)%Q in
  let textH := Z.max 18 (Math_round (inject_Z fontPx + 6)%Q) in
  let ty := y1 b - textH - 4 in
  let ty := if ty <? 0 then y1 b + lw else ty in
  let tx := Qmax 0 (Qmin (inject_Z drawW - textW - 2)%Q (inject_Z (x1 b))) in
  {| tx := tx; ty := ty; textW := textW; textH := textH; fontPx := fontPx |}.

(** [` [${r.personnel_id}]`] or the empty fragment, then the label. *)
Definition labelOf (r : result) : jsstring :=
  let pidFrag :=
    if truthy (personnel_id r)
    then lit " [" ++ orEmpty (personnel_id r) ++ lit "]"
    else [] in
  name r ++ pidFrag.

(** *** The polling loop (lines 21-23, 82-101, 184-189) *)

(** Functions handed to [setTimeout]: [loopRecognize] itself, and the
    arrow function of [showMessage] that blanks the message. *)
Inductive callback := cbLoopRecognize | cbClearMessage.

Record timer := { handle : nat; delay : Z; callback_of : callback }.

(** The script's globals, the browser's pending timeouts, the number of
    [loopRecognize] invocations suspended at an [await], the video's
    native size, and the page. *)
Record app := {
  recognizing : bool;
  recogTimer : option nat;
  timers : list timer;
  inflight : nat;
  nextHandle : nat;
  videoWidth : Z;
  videoHeight : Z;
  dom : page
}.

Definition with_recognizing (v : bool) (s : app) : app :=
  {| recognizing := v; recogTimer := recogTimer s; timers := timers s;
     inflight := inflight s; nextHandle := nextHandle s;
     videoWidth := videoWidth s; videoHeight := videoHeight s; dom := dom s |}.

Definition with_recogTimer (v : option nat) (s : app) : app :=
  {| recognizing := recognizing s; recogTimer := v; timers := timers s;
     inflight := inflight s; nextHandle := nextHandle s;
     videoWidth := videoWidth s; videoHeight := videoHeight s; dom := dom s |}.

Definition with_timers (v : list timer) (s : app) : app :=
  {| recognizing := recognizing s; recogTimer := recogTimer s; timers := v;
     inflight := inflight s; nextHandle := nextHandle s;
     videoWidth := videoWidth s; videoHeight := videoHeight s; dom := dom s |}.

Definition with_inflight (v : nat) (s : app) : app :=
  {| recognizing := recognizing s; recogTimer := recogTimer s;
     timers := timers s; inflight := v; nextHandle := nextHandle s;
     videoWidth := videoWidth s; videoHeight := videoHeight s; dom := dom s |}.

Definition with_video (vw vh : Z) (s : app) : app :=
  {| recognizing := recognizing s; recogTimer := recogTimer s;
     timers := timers s; inflight := inflight s; nextHandle := nextHandle s;
     videoWidth := vw; videoHeight := vh; dom := dom s |}.

Definition with_dom (v : page) (s : app) : app :=
  {| recognizing := recognizing s; recogTimer := recogTimer s;
     timers := timers s; inflight := inflight s; nextHandle := nextHandle s;
     videoWidth := videoWidth s; videoHeight := videoHeight s; dom := v |}.

(** [setTimeout(cb, ms)]: a fresh positive handle; the timeout is pending
    until it expires or is cleared. *)
Definition setTimeout (cb : callback) (ms : Z) (s : app) : nat * app :=
  (nextHandle s,
   {| recognizing := recognizing s; recogTimer := recogTimer s;
      timers := timers s ++ [{| handle := nextHandle s; delay := ms;
                                callback_of := cb |}];
      inflight := inflight s; nextHandle := S (nextHandle s);
      videoWidth := videoWidth s; videoHeight := videoHeight s;
      dom := dom s |}).

(** [clearTimeout(h)]; also how an expired timeout leaves the pending list. *)
Definition clearTimeout (h : nat) (s : app) : app :=
  with_timers (filter (fun t => negb (Nat.eqb (handle t) h)) (timers s)) s.

(** [showMessage(text, isError)] (lines 82-86) *)
Definition showMessage (text : jsstring) (isError : bool) (s : app) : app :=
  let cls := lit "message " ++ (if isError then lit "error" else []) in
  let s := with_dom (set_message text cls (dom s)) s in
  match text with
  | _ :: _ => snd (setTimeout cbClearMessage 5000 s)
  | [] => s
  end.

Definition clearMessage (s : app) : app :=
  with_dom (set_message [] (lit "message") (dom s)) s.

(** What the awaited part of a cycle ends with: [fetch] or [res.json()]
    rejects (a network or parse error), or the body is parsed.  A parsed
    body has the fields of [recognizeData] with their types, so that
    handling it raises no exception. *)
Inductive outcome := Failed | Parsed (data : recognizeData).

(** What the event loop delivers: a click on [recognizeToggle]; the expiry
    of the pending timeout [h]; the completion of a cycle in flight, with
    the text of [Date.now()]; the end of [startCamera], either way; a
    change of the video's native size. *)
Inductive event :=
| Click
| Fire (h : nat)
| Complete (o : outcome) (now : jsstring)
| CameraStarted (vw vh : Z)
| CameraFailed (reason : jsstring)
| VideoResized (vw vh : Z).

(** Timeouts that will call [loopRecognize]: the pending cycles. *)
Definition isCycle (t : timer) : bool :=
  match callback_of t with
  | cbLoopRecognize => true
  | cbClearMessage => false
  end.

Definition pendingCycles (s : app) : list timer := filter isCycle (timers s).

(** The page as the script finds it: its own freshly created [draw] canvas
    is blank, 300 by 150. *)
Definition boot (markup : page) : app :=
  {| recognizing := false; recogTimer := None; timers := []; inflight := 0;
     nextHandle := 1; videoWidth := 0; videoHeight := 0;
     dom := resize 300 150 markup |}.

Section Host.

(** Provided by the browser: text metrics of a label at a pixel size,
    [Number.prototype.toFixed(3)], and [new Date(s).toLocaleString()]. *)
Variable measureText : Z -> jsstring -> Q.
Variable toFixed3 : Q -> jsstring.
Variable toLocaleString : jsstring -> jsstring.

(** The callback of [data.results.forEach] (lines 147-174): the calls it
    makes on the context. *)
Definition drawResult (drawW : Z) (lw : Z) (scaleX scaleY : Q) (r : result)
  : list drawop :=
  match bbox r with
  | BboxArray [bx1; by1; bx2; by2] =>
      let b := mapBox scaleX scaleY bx1 by1 bx2 by2 in
      let label := labelOf r in
      let l := placeLabel drawW lw b (fun px => measureText px label) in
      [ strokeRect (stroke r) lw (x1 b) (y1 b) (w b) (h b);
        fillRect (rgba 0 0 0 (65 # 100)) (tx l) (ty l) (textW l) (textH l);
        fillText (hex 14870768) (fontPx l) label (tx l + 5)%Q (ty l + 3) ]
  | _ => []
  end.

Definition drawResults (drawW : Z) (lw : Z) (scaleX scaleY : Q)
  (rs : list result) : list drawop :=
  flat_map (drawResult drawW lw scaleX scaleY) rs.

(** [data.results.find(r => r.recognized) || data.results[0]] *)
Definition firstMatch (r0 : result) (rs : list result) : result :=
  match find recognized (r0 :: rs) with
  | Some r => r
  | None => r0
  end.

(** Lines 124-134: the side panel for the chosen result. *)
Definition showFirst (now : jsstring) (first : result) (p : page) : page :=
  let scoreText :=
    match score first with
    | Some sc => lit "(score: " ++ toFixed3 sc ++ lit ")"
    | None => []
    end in
  let shown :=
    if truthy (personnel_id first)
    then name first ++ lit " [" ++ orEmpty (personnel_id first) ++ lit "]"
    else name first in
  let p := set_current shown scoreText p in
  match face_image_url first with
  | Some (c :: url) =>
      let p := set_thumbWrap (option_map (fun _ => false) (thumbWrap p)) p in
      let p := set_lastFace
                 (option_map (fun _ => Some ((c :: url) ++ lit "?t=" ++ now))
                    (lastFace p)) p in
      match lastFaceTime p, recognized_at first with
      | Some _, Some (d :: at_) =>
          set_lastFaceTime (Some (lit "at " ++ toLocaleString (d :: at_))) p
      | _, _ => p
      end
  | _ => p
  end.

(** Lines 176-182: the side panel and the surface when there is nothing
    to show. *)
Definition showNone (p : page) : page :=
  let p := set_current (lit "-") [] p in
  let p := set_thumbWrap (option_map (fun _ => true) (thumbWrap p)) p in
  let p := set_lastFace (option_map (fun _ => None) (lastFace p)) p in
  let p := set_lastFaceTime (option_map (fun _ => []) (lastFaceTime p)) p in
  clearRect p.

(** Lines 110-183: what [loopRecognize] does with a parsed response.
    [vw], [vh] are [video.videoWidth], [video.videoHeight]; [now] is the
    text of [Date.now()]. *)
Definition render (vw vh : Z) (now : jsstring) (data : recognizeData)
  (p : page) : page :=
  let p := clearRect p in
  match results data with
  | Some (r0 :: rs) =>
      let p :=
        if negb (draw_width p =? vw) || negb (draw_height p =? vh)
        then resize vw vh p else p in
      let '(srcW, srcH) :=
        match image_size data with
        | Some sz => sz
        | None => (inject_Z vw, inject_Z vh)
        end in
      let scaleX := (inject_Z (draw_width p) / srcW)%Q in
      let scaleY := (inject_Z (draw_height p) / srcH)%Q in
      let first := firstMatch r0 rs in
      let p := showFirst now first p in
      let lw := lineWidth (draw_width p) (draw_height p) in
      set_surface
        (surface p ++ drawResults (draw_width p) lw scaleX scaleY (r0 :: rs)) p
  | _ => showNone p
  end.

(** [loopRecognize] up to its first [await] (lines 101-104). *)
Definition loopRecognize (s : app) : app :=
  if recognizing s then with_inflight (S (inflight s)) s else s.

(** [loopRecognize] from its last [await] on (lines 109-188): the
    [try] body on a parsed response, the empty [catch], and [finally]. *)
Definition settle (o : outcome) (now : jsstring) (s : app) : app :=
  let s :=
    match o with
    | Parsed data =>
        with_dom (render (videoWidth s) (videoHeight s) now data (dom s)) s
    | Failed => s
    end in
  let '(h, s) := setTimeout cbLoopRecognize 1000 s in
  with_recogTimer (Some h) s.

(** The click handler of [recognizeToggle] (lines 88-99). *)
Definition onToggleClick (s : app) : app :=
  let s := with_recognizing (negb (recognizing s)) s in
  let s :=
    with_dom
      (set_toggleText
         (if recognizing s then lit "Stop Recognizing"
          else lit "Start Recognizing") (dom s)) s in
  if recognizing s then loopRecognize s
  else
    match recogTimer s with
    | Some (S k) =>
        let s := clearTimeout (S k) s in
        let s := with_recogTimer None s in
        with_dom (clearRect (dom s)) s
    | _ => s
    end.

(** [startCamera] after [video.play()] resolves (lines 57-64), and its
    [catch] (line 66). *)
Definition cameraStarted (vw vh : Z) (s : app) : app :=
  let s := with_video vw vh s in
  with_dom (resize (videoWidth s) (videoHeight s) (dom s)) s.

Definition cameraFailed (reason : jsstring) (s : app) : app :=
  showMessage (lit "Camera error: " ++ reason) true s.

(** One turn of the event loop; [None] when the event cannot occur. *)
Definition step (s : app) (e : event) : option app :=
  match e with
  | Click => Some (onToggleClick s)
  | Fire h =>
      match find (fun t => Nat.eqb (handle t) h) (timers s) with
      | Some t =>
          let s := clearTimeout h s in
          Some (match callback_of t with
                | cbLoopRecognize => loopRecognize s
                | cbClearMessage => clearMessage s
                end)
      | None => None
      end
  | Complete o now =>
      match inflight s with
      | S n => Some (settle o now (with_inflight n s))
      | O => None
      end
  | CameraStarted vw vh => Some (cameraStarted vw vh s)
  | CameraFailed reason => Some (cameraFailed reason s)
  | VideoResized vw vh => Some (with_video vw vh s)
  end.

Fixpoint run (s : app) (evs : list event) : option app :=
  match evs with
  | [] => Some s
  | e :: evs' =>
      match step s e with
      | Some s' => run s' evs'
      | None => None
      end
  end.

(** Runs in which recognition is switched on only when no earlier cycle
    is still in flight or scheduled. *)
Fixpoint disciplined (s : app) (evs : list event) : Prop :=
  match evs with
  | [] => True
  | e :: evs' =>
      (e = Click -> recognizing s = false ->
       pendingCycles s = [] /\ inflight s = 0%nat)
      /\ match step s e with
         | Some s' => disciplined s' evs'
         | None => True
         end
  end.

End Host.

End Overlay.

(** ** The registration page ([static/register.js]) *)

Module Register.

(** A value appended to the [FormData]: a text field, or the captured
    frame under its file name (the image content is opaque). *)
Inductive formValue :=
| Text (v : jsstring)
| File (filename : jsstring).

Record request := {
  url : jsstring;
  method : jsstring;
  body : list (jsstring * formValue)
}.

(** What [res.json()] yields for an error response: a rejection (the body
    is not JSON), or an object whose [detail] text may be missing. *)
Inductive jsonBody :=
| Unparseable
| Object (detail : option jsstring).

(** The fate of [fetch]: it rejects with an error carrying [message], or
    resolves with a response ([res.ok] and the body). *)
Inductive reply :=
| Rejected (message : jsstring)
| Responded (ok : bool) (b : jsonBody).

(** The inputs and the message element, the delays of the timeouts armed
    by [showMessage], and the requests sent so far. *)
Record form := {
  nameInput : jsstring;
  personnelIdInput : jsstring;
  message : jsstring;
  messageClass : jsstring;
  timeouts : list Z;
  sent : list request
}.

(** [showMessage(text, isError)] (lines 32-36) *)
Definition showMessage (text : jsstring) (isError : bool) (f : form) : form :=
  {| nameInput := nameInput f; personnelIdInput := personnelIdInput f;
     message := text;
     messageClass := lit "message " ++ (if isError then lit "error" else []);
     timeouts := match text with
                 | _ :: _ => timeouts f ++ [5000]
                 | [] => timeouts f
                 end;
     sent := sent f |}.

Definition fetch (r : request) (f : form) : form :=
  {| nameInput := nameInput f; personnelIdInput := personnelIdInput f;
     message := message f; messageClass := messageClass f;
     timeouts := timeouts f; sent := sent f ++ [r] |}.

Definition clearInputs (f : form) : form :=
  {| nameInput := []; personnelIdInput := [];
     message := message f; messageClass := messageClass f;
     timeouts := timeouts f; sent := sent f |}.

(** [err.detail] after [await res.json().catch(() => ({}))] *)
Definition detailOf (b : jsonBody) : option jsstring :=
  match b with
  | Object d => d
  | Unparseable => None
  end.

(** The click handler of [registerBtn] (lines 50-74); [answer] is what the
    one [fetch] it may issue settles with. *)
Definition onRegisterClick (answer : reply) (f : form) : form :=
  let name := trim (nameInput f) in
  let personnelId := trim (personnelIdInput f) in
  match name with
  | [] => showMessage (lit "Please enter full name") true f
  | _ :: _ =>
      let fields :=
        [(lit "name", Text name)]
        ++ (match personnelId with
            | _ :: _ => [(lit "personnel_id", Text personnelId)]
            | [] => []
            end)
        ++ [(lit "image", File (lit "frame.jpg"))] in
      let f := fetch {| url := lit "/api/register"; method := lit "POST";
                        body := fields |} f in
      match answer with
      | Rejected msg => showMessage msg true f
      | Responded false b =>
          showMessage (orElse (detailOf b) (lit "Registration failed")) true f
      | Responded true _ =>
          showMessage (lit "Registered successfully") false (clearInputs f)
      end
  end.

End Register.

(** ** Specification-side definitions

    What the specification says in its own words, to be compared with the
    embedding of the code above. *)

Module Spec.

Import Overlay.

(** "accumulator = accumulator * 31 + charCode, unsigned 32-bit
    wraparound", folded over the key's characters. *)
Definition rolling_hash (key : jsstring) : Z :=
  fold_left (fun acc c => (acc * 31 + c) mod 2 ^ 32) key 0.

(** "hue = hash mod 360" *)
Definition hue_of (key : jsstring) : Z := rolling_hash key mod 360.

(** "name concatenated with an optional external identifier, separated by
    a delimiter" *)
Definition identity_key (nm : jsstring) (pid : option jsstring) : jsstring :=
  match pid with
  | Some id => nm ++ lit "|" ++ id
  | None => nm ++ lit "|"
  end.


(** The name, suffixed with the identifier in brackets when there is a
    non-empty one. *)
Definition display_name (r : result) : jsstring :=
  match personnel_id r with
  | Some (c :: id) => name r ++ lit " [" ++ (c :: id) ++ lit "]"
  | _ => name r
  end.

(** [r] is the first recognized result of [rl], or the head of [rl] when
    none is recognized. *)
Definition chosen (rl : list result) (r : result) : Prop :=
  (exists pre post,
      rl = pre ++ r :: post
      /\ Forall (fun x => recognized x = false) pre
      /\ recognized r = true)
  \/ (Forall (fun x => recognized x = false) rl /\ exists tl, rl = r :: tl).

End Spec.

(** ** Invariants of the polling loop *)

Module Inv.

Import Overlay.

(** Holds in every state the page can reach: handles are positive and
    fresh, and the surface is blank whenever no handle is stored. *)
Definition fresh (s : app) : Prop :=
  (1 <= nextHandle s)%nat
  /\ (forall t, In t (timers s) -> (handle t < nextHandle s)%nat)
  /\ (forall h, recogTimer s = Some h -> (1 <= h)%nat)
  /\ (recogTimer s = None -> surface (dom s) = []).

(** Holds as long as recognition is switched on only when no earlier cycle
    is in flight or scheduled: there is one cycle at most, and a scheduled
    one is the one whose handle is stored. *)
Definition single (s : app) : Prop :=
  (List.length (pendingCycles s) + inflight s <= 1)%nat
  /\ (forall t, In t (timers s) -> isCycle t = true ->
                recogTimer s = Some (handle t)).

End Inv.

(** ** A concrete browser, for evaluating the model on examples *)

Module Sample.

Import Overlay.

(** A fixed-pitch font: every code unit is 0.6 em wide. *)
Definition measureText (px : Z) (s : jsstring) : Q :=
  (inject_Z (px * Z.of_nat (List.length s)) * (6 # 10))%Q.

Definition digit (d : Z) : Z := 48 + d.

(** [toFixed(3)]: sign, integer part, and three decimals of the nearest
    multiple of 1/1000 (ties away from zero). *)
Definition toFixed3 (q : Q) : jsstring :=
  let n := Qfloor (Qabs q * 1000 + (1 # 2))%Q in
  (if Qlt_le_dec q 0 then lit "-" else [])
  ++ lit (NilZero.string_of_uint (N.to_uint (Z.to_N (n / 1000))))
  ++ lit "."
  ++ [digit (n / 100 mod 10); digit (n / 10 mod 10); digit (n mod 10)].

Definition toLocaleString (s : jsstring) : jsstring := s.

Definition markup : page :=
  {| toggleText := lit "Start Recognizing"; currentName := lit "-";
     currentScore := []; message := []; messageClass := lit "message";
     thumbWrap := Some true; lastFace := Some None; lastFaceTime := Some [];
     draw_width := 0; draw_height := 0; surface := [] |}.

Definition face (nm : string) (pid : option jsstring) (rec : bool)
  (b : bboxField) : result :=
  {| name := lit nm; personnel_id := pid; recognized := rec;
     score := Some (9 # 10); bbox := b; face_image_url := None;
     recognized_at := None |}.

Definition alice : result :=
  {| name := lit "Alice"; personnel_id := Some (lit "P-17");
     recognized := true; score := Some (9 # 10);
     bbox := BboxArray [inject_Z 100; inject_Z 50; inject_Z 300;
                        inject_Z 250];
     face_image_url := Some (lit "/static/last/alice.jpg");
     recognized_at := Some (lit "2024-05-01T10:00:00") |}.

Definition guest : result :=
  face "Unknown" None false
    (BboxArray [inject_Z 10; inject_Z 20; inject_Z 110; inject_Z 140]).




(** The registration form, blank and filled in. *)
Definition blankName : Register.form :=
  {| Register.nameInput := lit "   ";
     Register.personnelIdInput := lit "P-17";
     Register.message := []; Register.messageClass := lit "message";
     Register.timeouts := []; Register.sent := [] |}.

Definition filled : Register.form :=
  {| Register.nameInput := lit " Ada Lovelace ";
     Register.personnelIdInput := lit "P-17";
     Register.message := []; Register.messageClass := lit "message";
     Register.timeouts := []; Register.sent := [] |}.

Definition step := Overlay.step measureText toFixed3 toLocaleString.
Definition run := Overlay.run measureText toFixed3 toLocaleString.
Definition render := Overlay.render measureText toFixed3 toLocaleString.

End Sample.

(** ** Camera start-up (lines 25-68 of the recognition page) *)

Module Camera.

Import Overlay.

(** A media-capture function: one the browser ships (told apart by [id]),
    or the promise wrapper the script builds around a legacy one. *)
Inductive mediaFn :=
| builtin (id : Z)
| promisified (legacy : mediaFn).

(** The properties of [navigator] the script reads and writes.
    [mediaDevices] is [None] when there is no such object, and [Some g] for
    an object whose [getUserMedia] property is [g]. *)
Record navigator := {
  mediaDevices : option (option mediaFn);
  getUserMedia : option mediaFn;
  webkitGetUserMedia : option mediaFn;
  mozGetUserMedia : option mediaFn;
  msGetUserMedia : option mediaFn
}.

(** [navigator.mediaDevices && navigator.mediaDevices.getUserMedia] *)
Definition modern (nav : navigator) : option mediaFn :=
  match mediaDevices nav with
  | Some (Some g) => Some g
  | _ => None
  end.

(** [a || b] on optional functions *)
Definition orFn (a b : option mediaFn) : option mediaFn :=
  match a with
  | Some g => Some g
  | None => b
  end.

(** Lines 29-33 *)
Definition legacyGetUserMedia (nav : navigator) : option mediaFn :=
  orFn (getUserMedia nav)
    (orFn (webkitGetUserMedia nav)
       (orFn (mozGetUserMedia nav) (msGetUserMedia nav))).

(** [ensureGetUserMedia()]: its result and the navigator it leaves. *)
Definition ensureGetUserMedia (nav : navigator) : bool * navigator :=
  match modern nav with
  | Some _ => (true, nav)
  | None =>
      match legacyGetUserMedia nav with
      | None => (false, nav)
      | Some legacy =>
          (true,
           {| mediaDevices := Some (Some (promisified legacy));
              getUserMedia := getUserMedia nav;
              webkitGetUserMedia := webkitGetUserMedia nav;
              mozGetUserMedia := mozGetUserMedia nav;
              msGetUserMedia := msGetUserMedia nav |})
      end
  end.

(** [window.isSecureContext] (falsy when the browser lacks it),
    [location.protocol] and [location.hostname]. *)
Record location := {
  isSecureContext : bool;
  protocol : jsstring;
  hostname : jsstring
}.

(** [a === b] on strings *)
Definition jseq (a b : jsstring) : bool :=
  if list_eq_dec Z.eq_dec a b then true else false.

(** Line 47 *)
Definition isSecure (l : location) : bool :=
  isSecureContext l
  || jseq (protocol l) (lit "https:")
  || existsb (jseq (hostname l)) [lit "localhost"; lit "127.0.0.1"].

(** How the two awaits of [startCamera] settle: [getUserMedia] rejects,
    [video.play()] rejects (either with an error carrying [message]), or
    both resolve and the video has its native size. *)
Inductive capture :=
| Denied (message : jsstring)
| Stalled (message : jsstring)
| Playing (vw vh : Z).

(** The document around the script: the navigator, whether the page has a
    [.video-container], whether the [draw] canvas is in the document, and
    the capture functions invoked so far. *)
Record document := {
  nav : navigator;
  hasContainer : bool;
  drawAttached : bool;
  invoked : list mediaFn
}.

(** Lines 61-64: [vc && !document.getElementById('draw')] *)
Definition attachDraw (d : document) : document :=
  {| nav := nav d; hasContainer := hasContainer d;
     drawAttached := if hasContainer d && negb (drawAttached d) then true
                     else drawAttached d;
     invoked := invoked d |}.

(** [startCamera()] (lines 45-68), with the way its awaits settle as an
    input; [s] is the state of the page when its last part runs. *)
Definition startCamera (l : location) (c : capture) (d : document) (s : app)
  : document * app :=
  if negb (isSecure l)
  then (d, cameraFailed (lit "Camera requires HTTPS or localhost") s)
  else
    let '(ok, nav') := ensureGetUserMedia (nav d) in
    let d := {| nav := nav'; hasContainer := hasContainer d;
                drawAttached := drawAttached d; invoked := invoked d |} in
    if negb ok
    then (d, cameraFailed (lit "Camera API not supported in this browser") s)
    else
      match modern nav' with
      | Some g =>
          let d := {| nav := nav d; hasContainer := hasContainer d;
                      drawAttached := drawAttached d;
                      invoked := invoked d ++ [g] |} in
          match c with
          | Denied msg => (d, cameraFailed msg s)
          | Stalled msg => (d, cameraFailed msg s)
          | Playing vw vh => (attachDraw d, cameraStarted vw vh s)
          end
      | None => (d, s) (* not reached: [ensureGetUserMedia] returned true *)
      end.

End Camera.

(** ** The single-match recognition page (second script of the
    recognition page file, lines 192-432) *)

Module Single.

Import Overlay.

(** The parsed body of [/api/recognize] as this page reads it: the fields
    of one match ([personnel_id] is not read) and [image_size]. *)
Record matchData := {
  best : result;
  size : option (Q * Q)
}.

Section Host.

Variable measureText : Z -> jsstring -> Q.
Variable toFixed3 : Q -> jsstring.
Variable toLocaleString : jsstring -> jsstring.

(** Lines 357-364: the thumbnail for a match. *)
Definition showThumb (now : jsstring) (d : result) (p : page) : page :=
  match face_image_url d with
  | Some (c :: url) =>
      let p := set_thumbWrap (option_map (fun _ => false) (thumbWrap p)) p in
      let p := set_lastFace
                 (option_map (fun _ => Some ((c :: url) ++ lit "?t=" ++ now))
                    (lastFace p)) p in
      match lastFaceTime p, recognized_at d with
      | Some _, Some (t :: at_) =>
          set_lastFaceTime (Some (lit "at " ++ toLocaleString (t :: at_))) p
      | _, _ => p
      end
  | _ => p
  end.

(** Lines 365-402: the box and the label of a match. *)
Definition drawMatch (vw vh : Z) (data : matchData) (p : page) : page :=
  match bbox (best data) with
  | BboxArray [bx1; by1; bx2; by2] =>
      let p :=
        if negb (draw_width p =? vw) || negb (draw_height p =? vh)
        then resize vw vh p else p in
      let '(srcW, srcH) :=
        match size data with
        | Some sz => sz
        | None => (inject_Z vw, inject_Z vh)
        end in
      let scaleX := (inject_Z (draw_width p) / srcW)%Q in
      let scaleY := (inject_Z (draw_height p) / srcH)%Q in
      let b := mapBox scaleX scaleY bx1 by1 bx2 by2 in
      let label := name (best data) in
      let lw := lineWidth (draw_width p) (draw_height p) in
      let l := placeLabel (draw_width p) lw b
                 (fun px => measureText px label) in
      set_surface
        (surface p
         ++ [ strokeRect (hex 2278750) lw (x1 b) (y1 b) (w b) (h b);
              fillRect (rgba 0 0 0 (65 # 100)) (tx l) (ty l) (textW l)
                (textH l);
              fillText (hex 14870768) (fontPx l) label (tx l + 5)%Q
                (ty l + 3) ]) p
  | _ => p
  end.

(** Lines 351-412: what [loopRecognize] does with a parsed response, up
    to the end of the [try] body or to the statement that throws.
    [data.score.toFixed(3)] throws a TypeError when [score] is missing:
    the name is already written then, and nothing after line 356 runs. *)
Definition render (vw vh : Z) (now : jsstring) (data : matchData)
  (p : page) : page :=
  let p := clearRect p in
  if recognized (best data) then
    match score (best data) with
    | None => set_current (name (best data)) (currentScore p) p
    | Some sc =>
        let p := set_current (name (best data))
                   (lit "(score: " ++ toFixed3 sc ++ lit ")") p in
        let p := showThumb now (best data) p in
        drawMatch vw vh data p
    end
  else showNone p.

End Host.

End Single.

(** ** The other handlers of the single-match page (lines 284-327 and
    420-432 of the recognition page file) *)

Module Home.

Import Register.

(** [`${n}`] for an integral number *)
Definition showInt (n : Z) : jsstring :=
  lit (NilZero.string_of_int (Z.to_int n)).

(** An entry of [data.faces]. *)
Record faceRec := { name : jsstring; samples : Z }.

(** How the round-trip to /api/faces ends: [fetch] or [res.json()]
    rejects, or a body is parsed, whose [faces] may be missing. *)
Inductive facesReply :=
| FacesFailed
| FacesBody (faces : option (list faceRec)).

(** The body of a 2xx answer to /api/register: [res.json()] rejects with
    an error carrying [message], or the parsed body with its
    [registered_image_url], if any. *)
Inductive okBody :=
| BadJson (message : jsstring)
| Json (registered_image_url : option jsstring).

(** The fate of the registration request. *)
Inductive registerReply :=
| NoAnswer (message : jsstring)
| Refused (b : jsonBody)
| Accepted (b : okBody).

(** The fate of the request to /api/clear: [fetch] rejects, or it resolves
    with a response whose status the handler does not look at. *)
Inductive clearReply :=
| ClearRejected
| ClearResolved (ok : bool).

(** The name input, the text of the items of [facesList], the message
    element with the delays of its pending timeouts, the thumbnail
    elements, and the requests sent so far. *)
Record home := {
  nameInput : jsstring;
  facesList : list jsstring;
  message : jsstring;
  messageClass : jsstring;
  timeouts : list Z;
  thumbWrap : option bool;
  lastFace : option (option jsstring);
  sent : list request
}.

(** [showMessage(text, isError)] (lines 278-282) *)
Definition showMessage (text : jsstring) (isError : bool) (h : home) : home :=
  {| nameInput := nameInput h; facesList := facesList h;
     message := text;
     messageClass := lit "message " ++ (if isError then lit "error" else []);
     timeouts := match text with
                 | _ :: _ => timeouts h ++ [5000]
                 | [] => timeouts h
                 end;
     thumbWrap := thumbWrap h; lastFace := lastFace h; sent := sent h |}.

Definition fetch (r : request) (h : home) : home :=
  {| nameInput := nameInput h; facesList := facesList h;
     message := message h; messageClass := messageClass h;
     timeouts := timeouts h; thumbWrap := thumbWrap h;
     lastFace := lastFace h; sent := sent h ++ [r] |}.

Definition set_facesList (l : list jsstring) (h : home) : home :=
  {| nameInput := nameInput h; facesList := l;
     message := message h; messageClass := messageClass h;
     timeouts := timeouts h; thumbWrap := thumbWrap h;
     lastFace := lastFace h; sent := sent h |}.

Definition set_nameInput (v : jsstring) (h : home) : home :=
  {| nameInput := v; facesList := facesList h;
     message := message h; messageClass := messageClass h;
     timeouts := timeouts h; thumbWrap := thumbWrap h;
     lastFace := lastFace h; sent := sent h |}.

Definition set_thumb (w : option bool) (src : option (option jsstring))
  (h : home) : home :=
  {| nameInput := nameInput h; facesList := facesList h;
     message := message h; messageClass := messageClass h;
     timeouts := timeouts h; thumbWrap := w; lastFace := src;
     sent := sent h |}.

(** [`${rec.name} (samples: ${rec.samples})`] *)
Definition itemText (rec : faceRec) : jsstring :=
  name rec ++ lit " (samples: " ++ showInt (samples rec) ++ lit ")".

(** [nameInput.value.trim()] *)
Definition trimmedName (h : home) : jsstring := trim (nameInput h).

(** [refreshFacesList()] (lines 284-297) *)
Definition refreshFacesList (r : facesReply) (h : home) : home :=
  let h := fetch {| url := lit "/api/faces"; method := lit "GET";
                    body := [] |} h in
  match r with
  | FacesFailed => h
  | FacesBody faces =>
      set_facesList
        (map itemText (match faces with Some l => l | None => [] end)) h
  end.

(** The click handler of [registerBtn] (lines 299-327); [now] is the text
    of [Date.now()]. *)
Definition onRegisterClick (now : jsstring) (answer : registerReply)
  (faces : facesReply) (h : home) : home :=
  let name := trimmedName h in
  match name with
  | [] => showMessage (lit "Please enter a name to register") true h
  | _ :: _ =>
      let h := fetch {| url := lit "/api/register"; method := lit "POST";
                        body := [(lit "name", Text name);
                                 (lit "image", File (lit "frame.jpg"))] |}
                 h in
      match answer with
      | NoAnswer msg => showMessage msg true h
      | Refused b =>
          showMessage (orElse (detailOf b) (lit "Registration failed")) true h
      | Accepted (BadJson msg) => showMessage msg true h
      | Accepted (Json image) =>
          let h := set_nameInput [] h in
          let h := showMessage (lit "Registered successfully") false h in
          let h :=
            match image with
            | Some (c :: u) =>
                set_thumb (option_map (fun _ => false) (thumbWrap h))
                  (option_map (fun _ => Some ((c :: u) ++ lit "?t=" ++ now))
                     (lastFace h)) h
            | _ => h
            end in
          refreshFacesList faces h
      end
  end.

(** The click handler of [clearAllBtn] (lines 420-428) *)
Definition onClearAllClick (c : clearReply) (faces : facesReply) (h : home)
  : home :=
  let h := fetch {| url := lit "/api/clear"; method := lit "POST";
                    body := [] |} h in
  match c with
  | ClearRejected => showMessage (lit "Failed to clear") true h
  | ClearResolved _ =>
      showMessage (lit "Cleared all registered faces") false
        (refreshFacesList faces h)
  end.

End Home.

(** ** The identities page ([static/identities.js]) *)

Module Identities.

(** An entry of [data.faces]. *)
Record identity := {
  name : jsstring;
  personnel_id : option jsstring;
  samples : Z
}.

(** An item of [facesList] (lines 25-45), kept as its parts: the text in
    bold, the identifier fragment, the samples line, and the record its
    Edit and Delete buttons are bound to. *)
Record row := {
  strong : jsstring;
  meta : jsstring;
  samplesLine : jsstring;
  target : identity
}.

(** [selected]: [{ name, personnel_id }] *)
Record selection := {
  sel_name : jsstring;
  sel_personnel_id : option jsstring
}.

(** What a response body parses to: nothing (not JSON), or an object with
    the fields the page reads. *)
Inductive body :=
| NotJson
| Obj (detail : option jsstring) (faces : option (list identity)).

(** The fate of a [fetch]: it rejects with an error carrying [message],
    or resolves with a response ([res.ok] and its body). *)
Inductive reply :=
| NetworkError (message : jsstring)
| Http (ok : bool) (b : body).

(** What runs after [await refreshFacesList()]: nothing more, or the
    rest of the clear handler. *)
Inductive after := Nothing | SayCleared.

(** A request in flight, by the handler that awaits it. *)
Inductive op :=
| Faces (k : after)
| Clear
| Rename
| Delete.

(** The page: the list, the script's [selected], the edit panel, the
    message element with the number of its pending timeouts (all of 4000
    ms, so they expire in the order they were armed), the requests in
    flight and the requests sent so far. *)
Record page := {
  facesList : list row;
  selected : option selection;
  editName : jsstring;
  editPid : jsstring;
  editPanelHidden : bool;
  message : jsstring;
  messageClass : jsstring;
  timers : nat;
  pending : list op;
  sent : list Register.request
}.

Definition set_facesList (v : list row) (s : page) : page :=
  {| facesList := v; selected := selected s; editName := editName s;
     editPid := editPid s; editPanelHidden := editPanelHidden s;
     message := message s; messageClass := messageClass s;
     timers := timers s; pending := pending s; sent := sent s |}.

Definition set_editor (sel : option selection) (n p : jsstring)
  (hidden : bool) (s : page) : page :=
  {| facesList := facesList s; selected := sel; editName := n;
     editPid := p; editPanelHidden := hidden;
     message := message s; messageClass := messageClass s;
     timers := timers s; pending := pending s; sent := sent s |}.

Definition set_message (text cls : jsstring) (n : nat) (s : page) : page :=
  {| facesList := facesList s; selected := selected s;
     editName := editName s; editPid := editPid s;
     editPanelHidden := editPanelHidden s;
     message := text; messageClass := cls;
     timers := n; pending := pending s; sent := sent s |}.

Definition set_pending (v : list op) (s : page) : page :=
  {| facesList := facesList s; selected := selected s;
     editName := editName s; editPid := editPid s;
     editPanelHidden := editPanelHidden s;
     message := message s; messageClass := messageClass s;
     timers := timers s; pending := v; sent := sent s |}.

(** [fetch(...)] awaited by handler [o]: the request leaves, and is in
    flight until it settles. *)
Definition fetch (r : Register.request) (o : op) (s : page) : page :=
  {| facesList := facesList s; selected := selected s;
     editName := editName s; editPid := editPid s;
     editPanelHidden := editPanelHidden s;
     message := message s; messageClass := messageClass s;
     timers := timers s; pending := pending s ++ [o];
     sent := sent s ++ [r] |}.

(** [showMessage(text, isError)] (lines 13-17) *)
Definition showMessage (text : jsstring) (isError : bool) (s : page) : page :=
  set_message text
    (lit "message " ++ (if isError then lit "error" else []))
    (match text with
     | _ :: _ => S (timers s)
     | [] => timers s
     end) s.

(** The arrow function armed by [showMessage]. *)
Definition clearMessage (s : page) : page :=
  set_message [] (lit "message") (timers s) s.

(** Lines 25-45: the item built for a record. *)
Definition rowOf (rec : identity) : row :=
  let pid :=
    if truthy (personnel_id rec)
    then 32 :: 8226 :: lit " ID: " ++ orEmpty (personnel_id rec)
    else [] in
  {| strong := name rec; meta := pid;
     samplesLine := lit "samples: "
                    ++ lit (NilZero.string_of_int (Z.to_int (samples rec)));
     target := rec |}.

Definition get (path : string) : Register.request :=
  {| Register.url := lit path; Register.method := lit "GET";
     Register.body := [] |}.

Definition post (path : string)
  (fields : list (jsstring * Register.formValue)) : Register.request :=
  {| Register.url := lit path; Register.method := lit "POST";
     Register.body := fields |}.

(** [form.append(key, v)] guarded by [if (v)] *)
Definition optional (key : string) (v : option jsstring)
  : list (jsstring * Register.formValue) :=
  if truthy v then [(lit key, Register.Text (orEmpty v))] else [].

(** [refreshFacesList()] up to its first [await] (lines 19-21), with what
    is to follow it. *)
Definition refreshFacesList (k : after) (s : page) : page :=
  fetch (get "/api/faces") (Faces k) s.

(** [refreshFacesList()] from its awaits on (lines 22-49), and then what
    follows it in its caller. *)
Definition facesSettled (k : after) (r : reply) (s : page) : page :=
  let s :=
    match r with
    | Http _ (Obj _ faces) =>
        set_facesList
          (map rowOf (match faces with Some l => l | None => [] end)) s
    | _ => showMessage (lit "Failed to load faces") true s
    end in
  match k with
  | Nothing => s
  | SayCleared => showMessage (lit "Cleared all registered faces") false s
  end.

(** The click handler of [clearAllBtn] (lines 54-62), in its two parts. *)
Definition onClearAllClick (s : page) : page :=
  fetch (post "/api/clear" []) Clear s.

Definition clearSettled (r : reply) (s : page) : page :=
  match r with
  | NetworkError _ => showMessage (lit "Failed to clear") true s
  | Http _ _ => refreshFacesList SayCleared s
  end.

(** [beginEdit(rec)] (lines 66-71) *)
Definition beginEdit (rec : identity) (s : page) : page :=
  set_editor
    (Some {| sel_name := name rec;
             sel_personnel_id :=
               if truthy (personnel_id rec) then personnel_id rec
               else None |})
    (name rec) (orEmpty (personnel_id rec)) false s.

(** The click handler of [cancelEdit] (lines 73-76) *)
Definition onCancelClick (s : page) : page :=
  set_editor None (editName s) (editPid s) true s.

(** The click handler of [saveEdit] (lines 78-101), in its two parts. *)
Definition onSaveClick (s : page) : page :=
  match selected s with
  | None => s
  | Some sel =>
      let newName := trim (editName s) in
      let newPid := trim (editPid s) in
      match newName with
      | [] => showMessage (lit "New name required") true s
      | _ :: _ =>
          fetch
            (post "/api/identity/rename"
               ([(lit "old_name", Register.Text (sel_name sel))]
                ++ optional "old_personnel_id" (sel_personnel_id sel)
                ++ [(lit "new_name", Register.Text newName)]
                ++ optional "new_personnel_id" (Some newPid)))
            Rename s
      end
  end.

(** [err.detail || fallback] after [res.json().catch(() => ({}))] *)
Definition detailOr (b : body) (fallback : string) : jsstring :=
  match b with
  | Obj (Some (c :: d)) _ => c :: d
  | _ => lit fallback
  end.

Definition renameSettled (r : reply) (s : page) : page :=
  match r with
  | NetworkError msg => showMessage msg true s
  | Http false b => showMessage (detailOr b "Rename failed") true s
  | Http true _ =>
      let s := showMessage (lit "Updated") false s in
      let s := set_editor None (editName s) (editPid s) true s in
      refreshFacesList Nothing s
  end.

(** [deleteIdentity(rec)] (lines 103-118), in its two parts. *)
Definition deleteIdentity (rec : identity) (s : page) : page :=
  fetch
    (post "/api/identity/delete"
       ([(lit "name", Register.Text (name rec))]
        ++ optional "personnel_id" (personnel_id rec)))
    Delete s.

Definition deleteSettled (r : reply) (s : page) : page :=
  match r with
  | NetworkError msg => showMessage msg true s
  | Http false b => showMessage (detailOr b "Delete failed") true s
  | Http true _ =>
      refreshFacesList Nothing (showMessage (lit "Deleted") false s)
  end.

(** What the event loop delivers: clicks on the buttons of the page and
    of a row, typing in the two edit inputs, the settling of the [i]-th
    request in flight, and the expiry of the oldest message timeout. *)
Inductive event :=
| ClickRefresh
| ClickClear
| ClickEdit (rec : identity)
| ClickDelete (rec : identity)
| ClickCancel
| ClickSave
| Typed (n p : jsstring)
| Settle (i : nat) (r : reply)
| Expire.

Fixpoint remove_nth (i : nat) (l : list op) : list op :=
  match l, i with
  | [], _ => []
  | _ :: l', O => l'
  | o :: l', S i' => o :: remove_nth i' l'
  end.

(** One turn of the event loop; [None] when the event cannot occur. *)
Definition step (s : page) (e : event) : option page :=
  match e with
  | ClickRefresh => Some (refreshFacesList Nothing s)
  | ClickClear => Some (onClearAllClick s)
  | ClickEdit rec => Some (beginEdit rec s)
  | ClickDelete rec => Some (deleteIdentity rec s)
  | ClickCancel => Some (onCancelClick s)
  | ClickSave => Some (onSaveClick s)
  | Typed n p =>
      Some (set_editor (selected s) n p (editPanelHidden s) s)
  | Settle i r =>
      match nth_error (pending s) i with
      | Some o =>
          let s := set_pending (remove_nth i (pending s)) s in
          Some (match o with
                | Faces k => facesSettled k r s
                | Clear => clearSettled r s
                | Rename => renameSettled r s
                | Delete => deleteSettled r s
                end)
      | None => None
      end
  | Expire =>
      match timers s with
      | S n => Some (clearMessage (set_message (message s) (messageClass s)
                                     n s))
      | O => None
      end
  end.

Fixpoint run (s : page) (evs : list event) : option page :=
  match evs with
  | [] => Some s
  | e :: evs' =>
      match step s e with
      | Some s' => run s' evs'
      | None => None
      end
  end.

(** The page when the script has run: nothing is selected, and the first
    refresh of the list (line 64) is in flight. *)
Definition boot (markup : page) : page :=
  refreshFacesList Nothing
    {| facesList := facesList markup; selected := None;
       editName := editName markup; editPid := editPid markup;
       editPanelHidden := editPanelHidden markup;
       message := message markup; messageClass := messageClass markup;
       timers := 0; pending := []; sent := [] |}.

End Identities.

(** ** More concrete inputs *)

Module More.

Import Overlay.

(** A recognized match with a score, a box and no personnel identifier. *)
Definition bob : result :=
  {| name := lit "Bob"; personnel_id := None; recognized := true;
     score := Some (8 # 10);
     bbox := BboxArray [inject_Z 10; inject_Z 40; inject_Z 90; inject_Z 120];
     face_image_url := Some (lit "/static/last/bob.jpg");
     recognized_at := None |}.

(** A recognized match whose response carries no score. *)
Definition unscored : result :=
  {| name := lit "Bob"; personnel_id := None; recognized := true;
     score := None;
     bbox := BboxArray [inject_Z 10; inject_Z 40; inject_Z 90; inject_Z 120];
     face_image_url := None; recognized_at := None |}.

(** The single-match page with a name typed in and nothing registered. *)
Definition homePage : Home.home :=
  {| Home.nameInput := lit " Ada "; Home.facesList := [];
     Home.message := []; Home.messageClass := lit "message";
     Home.timeouts := []; Home.thumbWrap := Some true;
     Home.lastFace := Some None; Home.sent := [] |}.

(** An identity of the list. *)
Definition ada : Identities.identity :=
  {| Identities.name := lit "Ada";
     Identities.personnel_id := Some (lit "E7");
     Identities.samples := 3 |}.

(** The identities page as served: an empty list, a hidden edit panel. *)
Definition identitiesMarkup : Identities.page :=
  {| Identities.facesList := []; Identities.selected := None;
     Identities.editName := []; Identities.editPid := [];
     Identities.editPanelHidden := true;
     Identities.message := []; Identities.messageClass := lit "message";
     Identities.timers := 0; Identities.pending := [];
     Identities.sent := [] |}.

End More.

(** ** Vocabulary of the further properties *)

Module Props.

Import Overlay.

Definition isSome {A : Type} (o : option A) : bool :=
  match o with
  | Some _ => true
  | None => false
  end.

(** The cycles that are alive: scheduled or in flight. *)
Definition live (s : app) : nat :=
  (List.length (pendingCycles s) + inflight s)%nat.


(** Whether [bbox] is an array of length 4. *)
Definition hasBox (r : result) : bool :=
  match bbox r with
  | BboxArray [_; _; _; _] => true
  | _ => false
  end.

(** The stroke styles of the rectangles among the calls, in order. *)
Definition strokesOf (ops : list drawop) : list cssColor :=
  flat_map (fun op => match op with
                      | strokeRect c _ _ _ _ _ => [c]
                      | _ => []
                      end) ops.

(** The code unit of the delimiter in the identity key. *)
Definition bar : Z := 124.

(** A drawing with every rectangle stroked in the single-match page's
    green ([#22c55e]) instead. *)
Definition green (op : drawop) : drawop :=
  match op with
  | strokeRect _ lw x y w h => strokeRect (hex 2278750) lw x y w h
  | _ => op
  end.

Definition repaint (p : page) : page := set_surface (map green (surface p)) p.

(** A string with no white space at either end. *)
Definition trimmed (s : jsstring) : Prop :=
  (forall c rest, s = c :: rest -> isWhiteSpace c = false)
  /\ (forall pre c, s = pre ++ [c] -> isWhiteSpace c = false).

(** The registration request for a trimmed name and identifier. *)
Definition registration (nm pid : jsstring) : Register.request :=
  {| Register.url := lit "/api/register"; Register.method := lit "POST";
     Register.body :=
       match pid with
       | [] => [(lit "name", Register.Text nm);
                (lit "image", Register.File (lit "frame.jpg"))]
       | _ :: _ => [(lit "name", Register.Text nm);
                    (lit "personnel_id", Register.Text pid);
                    (lit "image", Register.File (lit "frame.jpg"))]
       end |}.

(** Whether a string is not empty. *)
Definition filled (s : jsstring) : bool :=
  match s with
  | [] => false
  | _ :: _ => true
  end.

(** The requests of the single-match page other than registration. *)
Definition facesRequest : Register.request :=
  {| Register.url := lit "/api/faces"; Register.method := lit "GET";
     Register.body := [] |}.

Definition clearRequest : Register.request :=
  {| Register.url := lit "/api/clear"; Register.method := lit "POST";
     Register.body := [] |}.

(** The list a parsed answer of /api/faces stands for. *)
Definition listed (faces : option (list Home.faceRec)) : list jsstring :=
  match faces with
  | Some l => map Home.itemText l
  | None => []
  end.

(** The rename request for a selection and the trimmed new values. *)
Definition renameRequest (oldName : jsstring) (oldPid : option jsstring)
  (newName newPid : jsstring) : Register.request :=
  Identities.post "/api/identity/rename"
    ([(lit "old_name", Register.Text oldName)]
     ++ Identities.optional "old_personnel_id" oldPid
     ++ [(lit "new_name", Register.Text newName)]
     ++ Identities.optional "new_personnel_id" (Some newPid)).


(** The delete request for an identity. *)
Definition deleteRequest (nm : jsstring) (pid : option jsstring)
  : Register.request :=
  Identities.post "/api/identity/delete"
    ([(lit "name", Register.Text nm)]
     ++ Identities.optional "personnel_id" pid).

(** What a request of the identities page can be after the events [evs]:
    the listing, the clearing, the deletion of a record whose Delete
    button was clicked, or, after a click on Save, the renaming of a
    record whose Edit button was clicked to a name that is not empty,
    with no white space at the ends of the new name and identifier. *)
Definition requested (evs : list Identities.event) (r : Register.request)
  : Prop :=
  r = Identities.get "/api/faces"
  \/ r = Identities.post "/api/clear" []
  \/ (exists rec,
        In (Identities.ClickDelete rec) evs
        /\ r = deleteRequest (Identities.name rec)
                 (Identities.personnel_id rec))
  \/ (exists rec newName newPid,
        In (Identities.ClickEdit rec) evs
        /\ In Identities.ClickSave evs
        /\ r = renameRequest (Identities.name rec)
                 (Identities.personnel_id rec) newName newPid
        /\ newName <> [] /\ trimmed newName /\ trimmed newPid).

(** The selection, if any, is a record whose Edit button was clicked. *)
Definition chosen (evs : list Identities.event) (s : Identities.page)
  : Prop :=
  forall sel, Identities.selected s = Some sel ->
    exists rec,
      In (Identities.ClickEdit rec) evs
      /\ Identities.sel_name sel = Identities.name rec
      /\ Identities.optional "old_personnel_id"
           (Identities.sel_personnel_id sel)
         = Identities.optional "old_personnel_id"
             (Identities.personnel_id rec).



(** [res.ok] of an answer, false when [fetch] rejected. *)
Definition answeredOk (a : Register.reply) : bool :=
  match a with
  | Register.Responded ok _ => ok
  | Register.Rejected _ => false
  end.

End Props.

Import Overlay.

(** * Properties *)

(** ** Deterministic stroke colour *)

Section ColorForId.

Lemma skipn_nth_error (key : jsstring) :
  forall (i : nat) (c : Z),
    nth_error key i = Some c -> skipn i key = c :: skipn (S i) key.
Proof.
  induction key as [| k key IH]; intros [| i] c Hnth; simpl in *;
    try discriminate.
  - now inversion Hnth.
  - now apply IH.
Qed.

(** The indexed [for] loop computes the left fold over the code units
    that are still to be read. *)
Lemma colorForId_loop_fold (key : jsstring) :
  forall (n i : nat) (hash : Z),
    (i + n = List.length key)%nat ->
    colorForId_loop key n i hash
    = fold_left (fun acc c => (acc * 31 + c) mod 2 ^ 32) (skipn i key) hash.
Proof.
  induction n as [| n IH]; intros i hash Hlen; simpl.
  - replace i with (List.length key) by lia.
    now rewrite skipn_all.
  - destruct (nth_error key i) as [c |] eqn:Hnth.
    + rewrite (skipn_nth_error key i c Hnth). simpl.
      apply IH. lia.
    + apply nth_error_None in Hnth. lia.
Qed.

Lemma colorForId_hash_spec (key : jsstring) :
  colorForId_hash key = Spec.rolling_hash key.
Proof.
  unfold colorForId_hash, Spec.rolling_hash.
  now rewrite colorForId_loop_fold by lia.
Qed.

Lemma rolling_hash_range (key : jsstring) :
  0 <= Spec.rolling_hash key < 2 ^ 32.
Proof.
  unfold Spec.rolling_hash.
  assert (H : forall acc, 0 <= acc < 2 ^ 32 ->
            0 <= fold_left (fun a c => (a * 31 + c) mod 2 ^ 32) key acc
              < 2 ^ 32).
  { induction key as [| c key IH]; intros acc Hacc; simpl.
    - exact Hacc.
    - apply IH. apply Z.mod_pos_bound. lia. }
  apply H. lia.
Qed.

Lemma identityKey_spec (r : result) :
  identityKey r = Spec.identity_key (name r) (personnel_id r).
Proof.
  unfold identityKey, Spec.identity_key.
  destruct (personnel_id r); simpl; reflexivity.
Qed.

(** C2. The stroke colour of a recognized result is [hsl(hue, 80%, 55%)]
    where [hue] is the 32-bit rolling hash (accumulator * 31 + charCode,
    wrapping modulo 2^32) of the identity key, reduced modulo 360; it lies
    in [0, 360) and is a function of the key alone.  A result that is not
    recognized is stroked in the fixed gray [hsl(0, 0%, 75%)]. *)
Theorem stroke_is_rolling_hash_hue :
  (forall key : jsstring,
      colorForId key = hsl (Spec.hue_of key) 80 55
      /\ 0 <= Spec.rolling_hash key < 2 ^ 32
      /\ 0 <= Spec.hue_of key < 360)
  /\ (forall r : result,
        stroke r
        = if recognized r
          then hsl (Spec.hue_of (Spec.identity_key (name r) (personnel_id r)))
                 80 55
          else hsl 0 0 75).
Proof.
  assert (Hcolor : forall key, colorForId key = hsl (Spec.hue_of key) 80 55).
  { intro key. unfold colorForId, Spec.hue_of, jsrem.
    rewrite colorForId_hash_spec.
    pose proof (rolling_hash_range key) as Hr.
    rewrite Z.rem_mod_nonneg by lia. reflexivity. }
  split.
  - intro key. split; [apply Hcolor |].
    split; [apply rolling_hash_range |].
    unfold Spec.hue_of. apply Z.mod_pos_bound. lia.
  - intro r. unfold stroke.
    destruct (recognized r); [| reflexivity].
    now rewrite Hcolor, identityKey_spec.
Qed.

End ColorForId.

(** ** The overlay renderer *)

Section Renderer.

Variable measureText : Z -> jsstring -> Q.
Variable toFixed3 : Q -> jsstring.
Variable toLocaleString : jsstring -> jsstring.

Let drawResult := Overlay.drawResult measureText.
Let drawResults := Overlay.drawResults measureText.
Let showFirst := Overlay.showFirst toFixed3 toLocaleString.
Let render := Overlay.render measureText toFixed3 toLocaleString.



(** The side panel leaves the canvas alone. *)
Lemma showFirst_canvas (now : jsstring) (first : result) (p : page) :
  draw_width (showFirst now first p) = draw_width p
  /\ draw_height (showFirst now first p) = draw_height p
  /\ surface (showFirst now first p) = surface p.
Proof.
  unfold showFirst, Overlay.showFirst.
  destruct (face_image_url first) as [[| c url] |]; simpl; auto.
  destruct (lastFaceTime p); simpl; auto.
  destruct (recognized_at first) as [[| d at_] |]; simpl; auto.
Qed.

Lemma showFirst_name (now : jsstring) (first : result) (p : page) :
  currentName (showFirst now first p)
  = (if truthy (personnel_id first)
     then name first ++ lit " [" ++ orEmpty (personnel_id first) ++ lit "]"
     else name first)
  /\ currentScore (showFirst now first p)
     = match score first with
       | Some sc => lit "(score: " ++ toFixed3 sc ++ lit ")"
       | None => []
       end.
Proof.
  unfold showFirst, Overlay.showFirst.
  destruct (face_image_url first) as [[| c url] |]; simpl; auto.
  destruct (lastFaceTime p); simpl; auto.
  destruct (recognized_at first) as [[| d at_] |]; simpl; auto.
Qed.

Lemma showFirst_message (now : jsstring) (first : result) (p : page) :
  message (showFirst now first p) = message p
  /\ messageClass (showFirst now first p) = messageClass p.
Proof.
  unfold showFirst, Overlay.showFirst.
  destruct (face_image_url first) as [[| c url] |]; simpl; auto.
  destruct (lastFaceTime p); simpl; auto.
  destruct (recognized_at first) as [[| d at_] |]; simpl; auto.
Qed.

(** Rendering never writes to the message element. *)
Lemma render_message (vw vh : Z) (now : jsstring) (data : recognizeData)
  (p : page) :
  message (render vw vh now data p) = message p
  /\ messageClass (render vw vh now data p) = messageClass p.
Proof.
  unfold render, Overlay.render.
  destruct (results data) as [[| r0 rs] |]; try (split; reflexivity).
  fold showFirst.
  destruct (image_size data) as [[sw sh] |];
    cbn [message messageClass set_surface];
    rewrite (proj1 (showFirst_message _ _ _)),
            (proj2 (showFirst_message _ _ _));
    destruct (negb _ || negb _); split; reflexivity.
Qed.

(** What a cycle with a non-empty result list leaves on the surface: the
    surface has the video's size, and holds the drawings of the results
    and nothing else. *)
Lemma render_surface (vw vh : Z) (now : jsstring) (r0 : result)
  (rs : list result) (sz : option (Q * Q)) (p : page) :
  let srcW := match sz with Some s => fst s | None => inject_Z vw end in
  let srcH := match sz with Some s => snd s | None => inject_Z vh end in
  surface (render vw vh now {| results := Some (r0 :: rs); image_size := sz |} p)
  = drawResults vw (lineWidth vw vh)
      (inject_Z vw / srcW)%Q (inject_Z vh / srcH)%Q (r0 :: rs).
Proof.
  unfold render, Overlay.render. cbn [results image_size].
  set (q := if negb (draw_width (clearRect p) =? vw)
               || negb (draw_height (clearRect p) =? vh)
            then resize vw vh (clearRect p) else clearRect p).
  assert (Hq : draw_width q = vw /\ draw_height q = vh /\ surface q = []).
  { subst q. cbn [clearRect set_surface draw_width draw_height].
    destruct (draw_width p =? vw) eqn:Ew; destruct (draw_height p =? vh) eqn:Eh;
      cbn; auto.
    apply Z.eqb_eq in Ew, Eh. auto. }
  destruct Hq as (Hw & Hh & Hs).
  destruct (showFirst_canvas now (firstMatch r0 rs) q) as (Fw & Fh & Fs).
  fold showFirst.
  destruct sz as [[sw sh] |]; cbn [fst snd surface set_surface];
    rewrite Fw, Fh, Fs, Hw, Hh, Hs; reflexivity.
Qed.





Lemma find_first_recognized (l : list result) :
  forall r : result,
    find recognized l = Some r ->
    exists pre post,
      l = pre ++ r :: post
      /\ Forall (fun x => recognized x = false) pre
      /\ recognized r = true.
Proof.
  induction l as [| a l IH]; intros r Hfind; simpl in Hfind.
  - discriminate.
  - destruct (recognized a) eqn:Ha.
    + inversion Hfind; subst. exists [], l. auto.
    + destruct (IH r Hfind) as (pre & post & -> & Hpre & Hr).
      exists (a :: pre), post. repeat split; auto.
Qed.

Lemma firstMatch_chosen (r0 : result) (rs : list result) :
  Spec.chosen (r0 :: rs) (firstMatch r0 rs).
Proof.
  unfold firstMatch.
  destruct (find recognized (r0 :: rs)) as [r |] eqn:Hfind.
  - left. now apply find_first_recognized.
  - right. split; [| now exists rs].
    apply Forall_forall. intros x Hx.
    exact (find_none recognized (r0 :: rs) Hfind x Hx).
Qed.

Lemma render_current (vw vh : Z) (now : jsstring) (r0 : result)
  (rs : list result) (sz : option (Q * Q)) (p : page) :
  let q := render vw vh now
             {| results := Some (r0 :: rs); image_size := sz |} p in
  currentName q = Spec.display_name (firstMatch r0 rs)
  /\ currentScore q
     = match score (firstMatch r0 rs) with
       | Some sc => lit "(score: " ++ toFixed3 sc ++ lit ")"
       | None => []
       end.
Proof.
  unfold render, Overlay.render. cbn [results image_size].
  fold showFirst.
  destruct sz as [[sw sh] |]; cbn [currentName currentScore set_surface];
    rewrite (proj1 (showFirst_name _ _ _)), (proj2 (showFirst_name _ _ _));
    unfold Spec.display_name;
    destruct (personnel_id (firstMatch r0 rs)) as [[| c id] |];
    split; reflexivity.
Qed.

(** C9. After a cycle with a non-empty result list, the side panel shows
    the first result flagged recognized, or the first result of the list
    when none is recognized: its name, followed by the personnel identifier
    in square brackets exactly when the result has a non-empty one, and its
    score text. *)
Theorem side_panel_shows_first_recognized :
  forall (vw vh : Z) (now : jsstring) (r0 : result) (rs : list result)
         (sz : option (Q * Q)) (p : page),
  exists first : result,
    Spec.chosen (r0 :: rs) first
    /\ currentName
         (render vw vh now
            {| results := Some (r0 :: rs); image_size := sz |} p)
       = match personnel_id first with
         | Some (c :: id) => name first ++ lit " [" ++ (c :: id) ++ lit "]"
         | _ => name first
         end
    /\ currentScore
         (render vw vh now
            {| results := Some (r0 :: rs); image_size := sz |} p)
       = match score first with
         | Some sc => lit "(score: " ++ toFixed3 sc ++ lit ")"
         | None => []
         end.
Proof.
  intros. exists (firstMatch r0 rs).
  split; [apply firstMatch_chosen | apply render_current].
Qed.

End Renderer.

(** *** The renderer on concrete results *)





(** ** The polling loop *)

Section Loop.

Variable measureText : Z -> jsstring -> Q.
Variable toFixed3 : Q -> jsstring.
Variable toLocaleString : jsstring -> jsstring.

Let render := Overlay.render measureText toFixed3 toLocaleString.
Let settle := Overlay.settle measureText toFixed3 toLocaleString.
Let step := Overlay.step measureText toFixed3 toLocaleString.
Let run := Overlay.run measureText toFixed3 toLocaleString.
Let disciplined := Overlay.disciplined measureText toFixed3 toLocaleString.

Lemma filter_handle_In (h : nat) (tm : list timer) (t : timer) :
  In t (filter (fun t => negb (Nat.eqb (handle t) h)) tm) ->
  In t tm /\ handle t <> h.
Proof.
  intro Hin. apply filter_In in Hin. destruct Hin as [Hin Hne].
  split; [exact Hin |].
  apply negb_true_iff, Nat.eqb_neq in Hne. exact Hne.
Qed.

Lemma settle_shape (o : outcome) (now : jsstring) (s : app) :
  timers (settle o now s)
  = timers s ++ [{| handle := nextHandle s; delay := 1000;
                    callback_of := cbLoopRecognize |}]
  /\ recogTimer (settle o now s) = Some (nextHandle s)
  /\ nextHandle (settle o now s) = S (nextHandle s)
  /\ inflight (settle o now s) = inflight s
  /\ recognizing (settle o now s) = recognizing s
  /\ dom (settle o now s)
     = match o with
       | Parsed data => render (videoWidth s) (videoHeight s) now data (dom s)
       | Failed => dom s
       end.
Proof.
  unfold settle, Overlay.settle. destruct o; cbn; repeat split; reflexivity.
Qed.

Lemma step_fresh (s s' : app) (e : event) :
  Inv.fresh s -> step s e = Some s' -> Inv.fresh s'.
Proof.
  intros (Hn & Ht & Hr & Hs) Hstep.
  destruct e as [| h | o now | vw vh | reason | vw vh]; cbn in Hstep.
  - (* Click *)
    inversion Hstep; subst s'; clear Hstep.
    unfold onToggleClick, loopRecognize. cbn.
    destruct (recognizing s); cbn.
    + destruct (recogTimer s) as [[| k] |] eqn:Hrt; cbn.
      * specialize (Hr 0%nat eq_refl). lia.
      * repeat split; cbn; auto; try discriminate.
        intros t Hin. apply filter_handle_In in Hin. now apply Ht.
      * repeat split; cbn; auto. rewrite Hrt. discriminate.
    + repeat split; cbn; auto.
  - (* Fire *)
    destruct (find _ (timers s)) as [t |]; [| discriminate].
    inversion Hstep; subst s'; clear Hstep.
    assert (Hsub : forall t0,
               In t0 (timers (clearTimeout h s)) ->
               (handle t0 < nextHandle s)%nat).
    { intros t0 Hin. cbn in Hin. apply filter_handle_In in Hin.
      now apply Ht. }
    destruct (callback_of t); unfold loopRecognize, clearMessage.
    + destruct (recognizing (clearTimeout h s)); repeat split; cbn; auto.
    + repeat split; cbn; auto.
  - (* Complete *)
    destruct (inflight s) as [| n]; [discriminate |].
    inversion Hstep; subst s'; clear Hstep.
    destruct (settle_shape o now (with_inflight n s))
      as (Et & Er & En & _ & _ & _).
    change (Inv.fresh (settle o now (with_inflight n s))).
    unfold Inv.fresh. rewrite Et, Er, En. cbn.
    repeat split.
    + lia.
    + intros t Hin. apply in_app_or in Hin. destruct Hin as [Hin | [<- | []]].
      * specialize (Ht t Hin). lia.
      * cbn. lia.
    + intros h Hh. inversion Hh. lia.
    + discriminate.
  - (* CameraStarted *)
    inversion Hstep; subst s'. repeat split; cbn; auto.
  - (* CameraFailed *)
    inversion Hstep; subst s'; clear Hstep.
    unfold cameraFailed, showMessage. cbn.
    repeat split; cbn; auto.
    intros t Hin. apply in_app_or in Hin. destruct Hin as [Hin | [<- | []]].
    + specialize (Ht t Hin). lia.
    + cbn. lia.
  - (* VideoResized *)
    inversion Hstep; subst s'. repeat split; cbn; auto.
Qed.

Lemma boot_fresh (markup : page) : Inv.fresh (boot markup).
Proof.
  repeat split; cbn; auto; try discriminate. intros t [].
Qed.

Lemma run_fresh (evs : list event) :
  forall s s' : app, Inv.fresh s -> run s evs = Some s' -> Inv.fresh s'.
Proof.
  induction evs as [| e evs IH]; intros s s' Hf Hrun; cbn in Hrun.
  - now inversion Hrun; subst.
  - destruct (Overlay.step measureText toFixed3 toLocaleString s e)
      as [s1 |] eqn:Hstep; [| discriminate].
    apply (IH s1 s'); [| exact Hrun].
    now apply (step_fresh s s1 e).
Qed.

Lemma filter_cycles_le (p : timer -> bool) (tm : list timer) :
  (List.length (filter isCycle (filter p tm))
   <= List.length (filter isCycle tm))%nat.
Proof.
  induction tm as [| t tm IH]; cbn; [lia |].
  destruct (p t), (isCycle t) eqn:Hc; cbn; rewrite ?Hc; cbn; lia.
Qed.

Lemma filter_cycles_lt (p : timer -> bool) (tm : list timer) (t : timer) :
  In t tm -> isCycle t = true -> p t = false ->
  (List.length (filter isCycle (filter p tm))
   < List.length (filter isCycle tm))%nat.
Proof.
  induction tm as [| a tm IH]; cbn; [intros [] |].
  intros [-> | Hin] Hc Hp.
  - rewrite Hp, Hc. cbn. pose proof (filter_cycles_le p tm). lia.
  - specialize (IH Hin Hc Hp).
    destruct (p a), (isCycle a) eqn:Ha; cbn; rewrite ?Ha; cbn; lia.
Qed.

Lemma no_cycle_no_pending (tm : list timer) :
  (forall t, In t tm -> isCycle t = true -> False) -> filter isCycle tm = [].
Proof.
  intro Hnone. destruct (filter isCycle tm) as [| t l] eqn:Ef; [reflexivity |].
  exfalso. assert (Hin : In t (t :: l)) by now left.
  rewrite <- Ef in Hin. apply filter_In in Hin.
  destruct Hin as [Hin Hc]. exact (Hnone t Hin Hc).
Qed.

Lemma cycle_In_pending (s : app) (t : timer) :
  In t (timers s) -> isCycle t = true -> In t (pendingCycles s).
Proof. intros Hin Hc. apply filter_In. now split. Qed.

Lemma no_pending_no_cycle (s : app) (t : timer) :
  List.length (pendingCycles s) = 0%nat ->
  In t (timers s) -> isCycle t = true -> False.
Proof.
  intros Hlen Hin Hc. apply (cycle_In_pending s t Hin) in Hc.
  destruct (pendingCycles s); [exact Hc | discriminate].
Qed.

Lemma step_single (s s' : app) (e : event) :
  Inv.fresh s -> Inv.single s ->
  (e = Click -> recognizing s = false ->
   pendingCycles s = [] /\ inflight s = 0%nat) ->
  step s e = Some s' -> Inv.single s'.
Proof.
  intros (Hn & Ht & Hr & Hs) (Hone & Hcur) Hdisc Hstep.
  destruct e as [| h | o now | vw vh | reason | vw vh]; cbn in Hstep.
  - (* Click *)
    inversion Hstep; subst s'; clear Hstep.
    unfold onToggleClick, loopRecognize. cbn.
    destruct (recognizing s) eqn:Hrec; cbn.
    + destruct (recogTimer s) as [[| k] |] eqn:Hrt; cbn.
      * split; cbn; [exact Hone | now rewrite Hrt].
      * assert (Hnone : forall t,
                   In t (filter (fun t => negb (Nat.eqb (handle t) (S k)))
                           (timers s)) ->
                   isCycle t = true -> False).
        { intros t Hin Hc. apply filter_handle_In in Hin.
          destruct Hin as [Hin Hne]. specialize (Hcur t Hin Hc).
          inversion Hcur. congruence. }
        split; cbn.
        -- unfold pendingCycles. cbn.
           rewrite (no_cycle_no_pending _ Hnone). cbn. lia.
        -- intros t Hin Hc. exfalso. exact (Hnone t Hin Hc).
      * split; cbn; [exact Hone | now rewrite Hrt].
    + destruct (Hdisc eq_refl eq_refl) as [Hp Hi].
      split; cbn.
      * unfold pendingCycles in *. cbn. rewrite Hp, Hi. cbn. lia.
      * exact Hcur.
  - (* Fire *)
    destruct (find _ (timers s)) as [t |] eqn:Hfind; [| discriminate].
    inversion Hstep; subst s'; clear Hstep.
    apply find_some in Hfind. destruct Hfind as [Hin Hh].
    assert (Hcur' : forall t0,
               In t0 (timers (clearTimeout h s)) -> isCycle t0 = true ->
               recogTimer s = Some (handle t0)).
    { intros t0 Hin0 Hc. cbn in Hin0. apply filter_handle_In in Hin0.
      now apply Hcur. }
    pose proof (filter_cycles_le (fun t => negb (Nat.eqb (handle t) h))
                  (timers s)) as Hle.
    destruct (callback_of t) eqn:Hcb; unfold loopRecognize, clearMessage.
    + assert (Hlt := filter_cycles_lt
                       (fun t => negb (Nat.eqb (handle t) h)) (timers s) t Hin).
      unfold isCycle at 1 in Hlt. rewrite Hcb, Hh in Hlt.
      specialize (Hlt eq_refl eq_refl).
      unfold pendingCycles in Hone.
      destruct (recognizing (clearTimeout h s)); split; cbn;
        unfold pendingCycles; cbn; auto; lia.
    + split; cbn; unfold pendingCycles in *; cbn; auto; lia.
  - (* Complete *)
    destruct (inflight s) as [| n] eqn:Hinf; [discriminate |].
    inversion Hstep; subst s'; clear Hstep.
    destruct (settle_shape o now (with_inflight n s))
      as (Et & Er & _ & Ei & _ & _).
    change (Inv.single (settle o now (with_inflight n s))).
    assert (Hzero : List.length (pendingCycles s) = 0%nat) by lia.
    unfold Inv.single, pendingCycles. rewrite Et, Er, Ei. cbn.
    split.
    + rewrite filter_app, length_app. cbn.
      unfold pendingCycles in Hzero. lia.
    + intros t Hin Hc. apply in_app_or in Hin.
      destruct Hin as [Hin | [<- | []]]; [| reflexivity].
      exfalso. exact (no_pending_no_cycle s t Hzero Hin Hc).
  - (* CameraStarted *)
    inversion Hstep; subst s'. split; cbn; auto.
  - (* CameraFailed *)
    inversion Hstep; subst s'; clear Hstep.
    unfold cameraFailed, showMessage. cbn.
    split; cbn.
    + unfold pendingCycles in *. cbn. rewrite filter_app. cbn.
      rewrite app_nil_r. exact Hone.
    + intros t Hin Hc. apply in_app_or in Hin.
      destruct Hin as [Hin | [<- | []]]; [now apply Hcur | discriminate].
  - (* VideoResized *)
    inversion Hstep; subst s'. split; cbn; auto.
Qed.

Lemma boot_single (markup : page) : Inv.single (boot markup).
Proof. split; cbn; [lia | intros t []]. Qed.

Lemma run_single (evs : list event) :
  forall s s' : app,
    Inv.fresh s -> Inv.single s -> disciplined s evs ->
    run s evs = Some s' -> Inv.single s'.
Proof.
  induction evs as [| e evs IH]; intros s s' Hf Hs Hd Hrun; cbn in Hrun.
  - now inversion Hrun; subst.
  - cbn in Hd. destruct Hd as [Hnow Hlater].
    destruct (Overlay.step measureText toFixed3 toLocaleString s e)
      as [s1 |] eqn:Hstep; [| discriminate].
    apply (IH s1 s'); [| | exact Hlater | exact Hrun].
    + now apply (step_fresh s s1 e).
    + now apply (step_single s s1 e).
Qed.

(** The handler on an active page (lines 89-98). *)
Lemma toggle_off_shape (s : app) :
  recognizing s = true ->
  let s' := onToggleClick s in
  recognizing s' = false
  /\ inflight s' = inflight s
  /\ (forall h, recogTimer s = Some h -> (1 <= h)%nat ->
                recogTimer s' = None
                /\ surface (dom s') = []
                /\ timers s'
                   = filter (fun t => negb (Nat.eqb (handle t) h)) (timers s))
  /\ (recogTimer s = None -> s' = with_dom (dom s') (with_recognizing false s)
                             /\ surface (dom s') = surface (dom s)).
Proof.
  intros Hrec. unfold onToggleClick, loopRecognize. cbn. rewrite Hrec. cbn.
  destruct (recogTimer s) as [[| k] |]; cbn;
    (split; [reflexivity |]); (split; [reflexivity |]); split;
    try discriminate; try (intros _; split; reflexivity).
  - intros h Hh Hpos. inversion Hh. lia.
  - intros h Hh _. inversion Hh; subst h. repeat split.
Qed.

(** C3 (as the code has it). In every state the page can reach, a click
    that turns recognition off cancels the timeout whose handle is stored
    in [recogTimer] and leaves the render surface blank at once, whether or
    not a cycle is in flight; a cycle in flight is not cancelled.  In runs
    where recognition is switched on only when no earlier cycle is still in
    flight or scheduled, at most one cycle is scheduled or in flight at any
    time, and none is scheduled right after switching off. *)
Theorem toggle_off_cancels_stored_timer :
  forall (markup : page) (evs : list event) (s : app),
    run (boot markup) evs = Some s ->
    (recognizing s = true ->
     exists s',
       step s Click = Some s'
       /\ recognizing s' = false
       /\ recogTimer s' = None
       /\ surface (dom s') = []
       /\ (forall h, recogTimer s = Some h -> ~ In h (map handle (timers s')))
       /\ inflight s' = inflight s
       /\ (disciplined (boot markup) evs -> pendingCycles s' = []))
    /\ (disciplined (boot markup) evs ->
        (List.length (pendingCycles s) + inflight s <= 1)%nat).
Proof.
  intros markup evs s Hrun.
  pose proof (run_fresh evs _ _ (boot_fresh markup) Hrun) as Hfresh.
  split.
  - intro Hrec. exists (onToggleClick s).
    destruct (toggle_off_shape s Hrec) as (Hoff & Hinf & Hsome & Hnone).
    destruct Hfresh as (_ & _ & Hpos & Hblank).
    split; [reflexivity |]. split; [exact Hoff |].
    destruct (recogTimer s) as [h |] eqn:Hrt.
    + destruct (Hsome h eq_refl (Hpos h eq_refl)) as (Hrt' & Hsurf & Htm).
      repeat split; auto.
      * intros h' Hh' Hin. inversion Hh'; subst h'.
        apply in_map_iff in Hin. destruct Hin as (t & Hth & Hin).
        rewrite Htm in Hin. apply filter_handle_In in Hin. tauto.
      * intro Hd.
        pose proof (run_single evs _ _ (boot_fresh markup)
                      (boot_single markup) Hd Hrun) as (_ & Hcur).
        unfold pendingCycles. rewrite Htm.
        apply no_cycle_no_pending. intros t Hin Hc.
        apply filter_handle_In in Hin.
        destruct Hin as [Hin Hne]. specialize (Hcur t Hin Hc).
        inversion Hcur. congruence.
    + destruct (Hnone eq_refl) as (Hs' & Hsurf).
      repeat split; auto.
      * rewrite Hs'. cbn. exact Hrt.
      * rewrite Hsurf. now apply Hblank.
      * discriminate.
      * intro Hd.
        pose proof (run_single evs _ _ (boot_fresh markup)
                      (boot_single markup) Hd Hrun) as (_ & Hcur).
        rewrite Hs'. unfold pendingCycles. cbn.
        apply no_cycle_no_pending. intros t Hin Hc.
        specialize (Hcur t Hin Hc). rewrite Hrt in Hcur. discriminate.
  - intro Hd.
    exact (proj1 (run_single evs _ _ (boot_fresh markup)
                    (boot_single markup) Hd Hrun)).
Qed.

Lemma find_fresh_handle (tm : list timer) (t : timer) :
  (forall t0, In t0 tm -> (handle t0 < handle t)%nat) ->
  find (fun t0 => Nat.eqb (handle t0) (handle t)) (tm ++ [t]) = Some t.
Proof.
  induction tm as [| a tm IH]; intro Hlt; cbn.
  - now rewrite Nat.eqb_refl.
  - assert (Ha : (handle a < handle t)%nat) by (apply Hlt; now left).
    apply Nat.lt_neq, Nat.eqb_neq in Ha. rewrite Ha.
    apply IH. intros t0 Hin. apply Hlt. now right.
Qed.

(** The expiry of a timeout for [loopRecognize] on an active page starts a
    cycle. *)
Lemma fire_starts_cycle (s : app) (h : nat) (t : timer) :
  find (fun t0 => Nat.eqb (handle t0) h) (timers s) = Some t ->
  callback_of t = cbLoopRecognize ->
  recognizing s = true ->
  exists s',
    step s (Fire h) = Some s'
    /\ recognizing s' = true
    /\ inflight s' = S (inflight s).
Proof.
  intros Hfind Hcb Hrec. unfold step, Overlay.step.
  rewrite Hfind, Hcb. eexists. split; [reflexivity |].
  unfold loopRecognize, clearTimeout. cbn. rewrite Hrec. cbn.
  split; [exact Hrec | reflexivity].
Qed.

(** C4. Whatever a cycle ends with (a parsed response with or without
    detections, or a network or parse error), its completion schedules
    [loopRecognize] again after 1000 ms and stores the new handle; the
    message element is not touched, and on an error the whole page is left
    as it was.  While recognition is on, the expiry of that timeout starts
    the next cycle, so a failed cycle does not stop the loop. *)
Theorem next_cycle_always_scheduled :
  forall (markup : page) (evs : list event) (s : app)
         (o : outcome) (now : jsstring),
    run (boot markup) evs = Some s ->
    inflight s <> 0%nat ->
    exists s',
      step s (Complete o now) = Some s'
      /\ timers s'
         = timers s ++ [{| handle := nextHandle s; delay := 1000;
                           callback_of := cbLoopRecognize |}]
      /\ recogTimer s' = Some (nextHandle s)
      /\ recognizing s' = recognizing s
      /\ message (dom s') = message (dom s)
      /\ messageClass (dom s') = messageClass (dom s)
      /\ (o = Failed -> dom s' = dom s)
      /\ (recognizing s = true ->
          exists s'',
            step s' (Fire (nextHandle s)) = Some s''
            /\ recognizing s'' = true
            /\ inflight s'' = inflight s).
Proof.
  intros markup evs s o now Hrun Hinf.
  pose proof (run_fresh evs _ _ (boot_fresh markup) Hrun)
    as (_ & Hlt & _ & _).
  destruct (inflight s) as [| n] eqn:En; [contradiction |].
  exists (settle o now (with_inflight n s)).
  destruct (settle_shape o now (with_inflight n s))
    as (Et & Er & _ & Ei & Erec & Ed).
  split; [cbn; now rewrite En |].
  split; [exact Et |]. split; [exact Er |]. split; [exact Erec |].
  split; [| split; [| split]].
  - rewrite Ed. destruct o; [reflexivity |].
    now apply (render_message measureText toFixed3 toLocaleString).
  - rewrite Ed. destruct o; [reflexivity |].
    now apply (render_message measureText toFixed3 toLocaleString).
  - intros ->. exact Ed.
  - intro Hrec.
    set (t := {| handle := nextHandle s; delay := 1000;
                 callback_of := cbLoopRecognize |}) in *.
    assert (Et' : timers (settle o now (with_inflight n s)) = timers s ++ [t])
      by exact Et.
    assert (Efind : find (fun t0 => Nat.eqb (handle t0) (nextHandle s))
                      (timers (settle o now (with_inflight n s))) = Some t).
    { rewrite Et'. exact (find_fresh_handle (timers s) t Hlt). }
    destruct (fire_starts_cycle _ (nextHandle s) t Efind eq_refl)
      as (s'' & Hfire & Hon & Hfl); [now rewrite Erec |].
    exists s''. split; [exact Hfire |]. split; [exact Hon |].
    rewrite Hfl, Ei. reflexivity.
Qed.


End Loop.

(** *** The loop on concrete runs *)

(** Recognition is switched on, off and on again while the first cycle is
    still in flight; both cycles then complete (here: fail), and each
    schedules a successor: two cycles are scheduled at once.  A further
    click cancels only the one whose handle is stored. *)
Lemma two_cycles_scheduled :
  option_map (fun s => (recognizing s, map handle (pendingCycles s)))
    (Sample.run (boot Sample.markup)
       [Click; Click; Click;
        Complete Failed (lit "0"); Complete Failed (lit "0")])
  = Some (true, [1%nat; 2%nat])
  /\ option_map (fun s => (recognizing s, map handle (pendingCycles s)))
       (Sample.run (boot Sample.markup)
          [Click; Click; Click;
           Complete Failed (lit "0"); Complete Failed (lit "0"); Click])
     = Some (false, [1%nat]).
Proof. split; vm_compute; reflexivity. Qed.

Lemma toggle_off_cancels_stored_timer_witness :
  let s := Overlay.settle Sample.measureText Sample.toFixed3
             Sample.toLocaleString Failed (lit "0")
             (with_inflight 0 (onToggleClick (boot Sample.markup))) in
  Sample.run (boot Sample.markup) [Click; Complete Failed (lit "0")] = Some s
  /\ recognizing s = true
  /\ Overlay.disciplined Sample.measureText Sample.toFixed3
       Sample.toLocaleString (boot Sample.markup)
       [Click; Complete Failed (lit "0")]
  /\ pendingCycles s <> []
  /\ exists s',
      Sample.step s Click = Some s'
      /\ surface (dom s') = [] /\ pendingCycles s' = [].
Proof.
  intro s.
  assert (Hrun : Sample.run (boot Sample.markup)
                   [Click; Complete Failed (lit "0")] = Some s)
    by reflexivity.
  assert (Hrec : recognizing s = true) by reflexivity.
  assert (Hd : Overlay.disciplined Sample.measureText Sample.toFixed3
                 Sample.toLocaleString (boot Sample.markup)
                 [Click; Complete Failed (lit "0")]).
  { simpl. split; [intros _ _; split; reflexivity |].
    split; [intros Hc; discriminate Hc | exact I]. }
  split; [exact Hrun |]. split; [exact Hrec |]. split; [exact Hd |].
  split; [discriminate |].
  destruct (proj1 (toggle_off_cancels_stored_timer Sample.measureText
                     Sample.toFixed3 Sample.toLocaleString Sample.markup
                     [Click; Complete Failed (lit "0")] s Hrun) Hrec)
    as (s' & Hstep & _ & _ & Hsurf & _ & _ & Hnone).
  exists s'. split; [exact Hstep |]. split; [exact Hsurf | exact (Hnone Hd)].
Defined.

Lemma next_cycle_always_scheduled_witness :
  let s := onToggleClick (boot Sample.markup) in
  Sample.run (boot Sample.markup) [Click] = Some s
  /\ inflight s <> 0%nat
  /\ recognizing s = true
  /\ exists s',
      Sample.step s (Complete Failed (lit "0")) = Some s'
      /\ recogTimer s' = Some 1%nat
      /\ dom s' = dom s
      /\ exists s'',
          Sample.step s' (Fire 1) = Some s'' /\ inflight s'' = 1%nat.
Proof.
  intro s.
  assert (Hrun : Sample.run (boot Sample.markup) [Click] = Some s)
    by reflexivity.
  assert (Hinf : inflight s <> 0%nat) by discriminate.
  assert (Hrec : recognizing s = true) by reflexivity.
  split; [exact Hrun |]. split; [exact Hinf |]. split; [exact Hrec |].
  destruct (next_cycle_always_scheduled Sample.measureText Sample.toFixed3
              Sample.toLocaleString Sample.markup [Click] s Failed (lit "0")
              Hrun Hinf)
    as (s' & Hstep & _ & Hrt & _ & _ & _ & Hdom & Hnext).
  exists s'. split; [exact Hstep |]. split; [exact Hrt |].
  split; [exact (Hdom eq_refl) |].
  destruct (Hnext Hrec) as (s'' & Hfire & _ & Hfl).
  exists s''. split; [exact Hfire | exact Hfl].
Defined.



(** ** The registration form *)

Section Registration.

Import Register.

(** C10. A click on the register button while the name input is empty
    or all white space sends no request, shows the error message asking
    for the name, and leaves both inputs as they are, whatever the
    personnel identifier input holds. *)
Theorem empty_name_sends_nothing :
  forall (answer : reply) (f : form),
    trim (nameInput f) = [] ->
    let f' := onRegisterClick answer f in
    sent f' = sent f
    /\ Register.message f' = lit "Please enter full name"
    /\ Register.messageClass f' = lit "message error"
    /\ nameInput f' = nameInput f
    /\ personnelIdInput f' = personnelIdInput f.
Proof.
  intros answer f Hname. unfold onRegisterClick. rewrite Hname.
  repeat split.
Qed.


End Registration.

(** *** The form on concrete clicks *)

Lemma empty_name_sends_nothing_witness :
  trim (Register.nameInput Sample.blankName) = []
  /\ Register.sent
       (Register.onRegisterClick
          (Register.Responded true (Register.Object None)) Sample.blankName)
     = []
  /\ Register.personnelIdInput
       (Register.onRegisterClick
          (Register.Responded true (Register.Object None)) Sample.blankName)
     = lit "P-17".
Proof.
  assert (H : trim (Register.nameInput Sample.blankName) = [])
    by reflexivity.
  split; [exact H |].
  destruct (empty_name_sends_nothing
              (Register.Responded true (Register.Object None))
              Sample.blankName H)
    as (Hsent & _ & _ & _ & Hpid).
  split; [exact Hsent | exact Hpid].
Defined.



(** * Further properties of the scripts *)

(** ** Camera start-up *)

Section CameraStartup.

Import Camera Props.

Lemma ensure_cases (nav : navigator) :
  (exists g, modern nav = Some g /\ ensureGetUserMedia nav = (true, nav))
  \/ (modern nav = None /\ legacyGetUserMedia nav = None
      /\ ensureGetUserMedia nav = (false, nav))
  \/ (exists legacy,
         modern nav = None /\ legacyGetUserMedia nav = Some legacy
         /\ ensureGetUserMedia nav
            = (true,
               {| mediaDevices := Some (Some (promisified legacy));
                  getUserMedia := getUserMedia nav;
                  webkitGetUserMedia := webkitGetUserMedia nav;
                  mozGetUserMedia := mozGetUserMedia nav;
                  msGetUserMedia := msGetUserMedia nav |})).
Proof.
  unfold ensureGetUserMedia.
  destruct (modern nav) as [g |] eqn:Hm.
  - left. now exists g.
  - destruct (legacyGetUserMedia nav) as [legacy |] eqn:Hl.
    + right. right. now exists legacy.
    + right. left. auto.
Qed.

(** X1. [ensureGetUserMedia] answers true exactly when the browser has the
    modern capture function or one of the four legacy ones; after a true
    answer [navigator.mediaDevices.getUserMedia] exists, and after a false
    one the navigator is as it was. *)
Theorem ensureGetUserMedia_makes_api_available :
  forall nav : navigator,
    fst (ensureGetUserMedia nav)
    = (isSome (modern nav) || isSome (getUserMedia nav)
       || isSome (webkitGetUserMedia nav) || isSome (mozGetUserMedia nav)
       || isSome (msGetUserMedia nav))
    /\ (fst (ensureGetUserMedia nav) = true ->
        modern (snd (ensureGetUserMedia nav)) <> None)
    /\ (fst (ensureGetUserMedia nav) = false ->
        snd (ensureGetUserMedia nav) = nav).
Proof.
  intro nav.
  destruct (ensure_cases nav)
    as [(g & Hm & ->) | [(Hm & Hl & ->) | (legacy & Hm & Hl & ->)]];
    cbn [fst snd]; rewrite Hm; cbn [isSome orb].
  - repeat split; congruence.
  - unfold legacyGetUserMedia, orFn in Hl.
    destruct (getUserMedia nav), (webkitGetUserMedia nav),
      (mozGetUserMedia nav), (msGetUserMedia nav); try discriminate.
    repeat split; congruence.
  - unfold legacyGetUserMedia, orFn in Hl.
    split; [| split; [intros _; discriminate | discriminate]].
    destruct (getUserMedia nav), (webkitGetUserMedia nav),
      (mozGetUserMedia nav), (msGetUserMedia nav); try discriminate;
      reflexivity.
Qed.

(** X2. Calling [ensureGetUserMedia] a second time changes nothing more;
    a capture function the browser already offers under
    [navigator.mediaDevices] is never replaced; the legacy properties are
    never touched; and the wrapper that is installed wraps the first
    legacy function in the order unprefixed, webkit, moz, ms. *)
Theorem ensureGetUserMedia_idempotent_and_conservative :
  forall nav : navigator,
    let nav' := snd (ensureGetUserMedia nav) in
    ensureGetUserMedia nav' = (fst (ensureGetUserMedia nav), nav')
    /\ (isSome (modern nav) = true -> nav' = nav)
    /\ getUserMedia nav' = getUserMedia nav
    /\ webkitGetUserMedia nav' = webkitGetUserMedia nav
    /\ mozGetUserMedia nav' = mozGetUserMedia nav
    /\ msGetUserMedia nav' = msGetUserMedia nav
    /\ (modern nav = None ->
        forall g,
          (getUserMedia nav = Some g
           \/ (getUserMedia nav = None /\ webkitGetUserMedia nav = Some g)
           \/ (getUserMedia nav = None /\ webkitGetUserMedia nav = None
               /\ mozGetUserMedia nav = Some g)
           \/ (getUserMedia nav = None /\ webkitGetUserMedia nav = None
               /\ mozGetUserMedia nav = None /\ msGetUserMedia nav = Some g))
          -> modern nav' = Some (promisified g)).
Proof.
  intros nav nav'. subst nav'.
  destruct (ensure_cases nav)
    as [(g & Hm & E) | [(Hm & Hl & E) | (legacy & Hm & Hl & E)]];
    rewrite E; cbn [fst snd].
  - rewrite E. repeat split; auto. intro H. congruence.
  - rewrite E. repeat split; auto.
    intros _ g Hg. unfold legacyGetUserMedia, orFn in Hl.
    destruct Hg as [H | [[H0 H] | [(H0 & H1 & H) | (H0 & H1 & H2 & H)]]];
      rewrite ?H0, ?H1, ?H2, ?H in Hl; discriminate.
  - split; [reflexivity |].
    split; [rewrite Hm; discriminate |].
    repeat split.
    intros _ g Hg. cbn. unfold legacyGetUserMedia, orFn in Hl.
    destruct Hg as [H | [[H0 H] | [(H0 & H1 & H) | (H0 & H1 & H2 & H)]]];
      rewrite ?H0, ?H1, ?H2, ?H in Hl; congruence.
Qed.

End CameraStartup.

Section CameraOutcome.

Import Camera Props.

Lemma jseq_eq (a b : jsstring) : jseq a b = true <-> a = b.
Proof.
  unfold jseq. destruct (list_eq_dec Z.eq_dec a b); split; congruence.
Qed.

Lemma isSecure_spec (l : location) :
  isSecure l = true
  <-> isSecureContext l = true \/ protocol l = lit "https:"
      \/ hostname l = lit "localhost" \/ hostname l = lit "127.0.0.1".
Proof.
  unfold isSecure. cbn [existsb].
  rewrite !orb_true_iff, !jseq_eq. intuition congruence.
Qed.

Lemma ensure_true_modern (n : navigator) :
  fst (ensureGetUserMedia n) = true ->
  exists g, modern (snd (ensureGetUserMedia n)) = Some g.
Proof.
  intro Hok.
  destruct (ensure_cases n)
    as [(g & Hm & E) | [(Hm & Hl & E) | (legacy & Hm & Hl & E)]];
    rewrite E in *; cbn [fst snd] in *.
  - now exists g.
  - discriminate.
  - now exists (promisified legacy).
Qed.

(** X3. [startCamera] invokes a capture function only on a secure origin
    (a secure context, https, or the host names localhost and 127.0.0.1)
    that has a capture API.  On any other origin it neither touches the
    navigator nor invokes anything and reports that the camera requires
    HTTPS or localhost; on a secure origin without any capture API it
    invokes nothing and reports that the API is not supported; otherwise
    it invokes exactly the function that [ensureGetUserMedia] left under
    [navigator.mediaDevices]. *)
Theorem startCamera_asks_only_when_allowed :
  forall (l : location) (c : capture) (d : document) (s : app),
    let d' := fst (startCamera l c d s) in
    let s' := snd (startCamera l c d s) in
    (isSecure l = true
     <-> isSecureContext l = true \/ protocol l = lit "https:"
         \/ hostname l = lit "localhost" \/ hostname l = lit "127.0.0.1")
    /\ (isSecure l = false ->
        d' = d
        /\ message (dom s')
           = lit "Camera error: Camera requires HTTPS or localhost")
    /\ (isSecure l = true ->
        fst (ensureGetUserMedia (nav d)) = false ->
        nav d' = nav d /\ invoked d' = invoked d
        /\ message (dom s')
           = lit "Camera error: Camera API not supported in this browser")
    /\ (isSecure l = true ->
        fst (ensureGetUserMedia (nav d)) = true ->
        exists g,
          nav d' = snd (ensureGetUserMedia (nav d))
          /\ modern (nav d') = Some g
          /\ invoked d' = invoked d ++ [g]).
Proof.
  intros l c d s d' s'. subst d' s'.
  split; [apply isSecure_spec |].
  unfold startCamera.
  destruct (isSecure l) eqn:Hsec; cbn [negb].
  - split; [discriminate |].
    destruct (ensureGetUserMedia (nav d)) as [ok nav'] eqn:E.
    cbn [fst snd].
    split.
    + intros _ Hok. subst ok. cbn [negb fst snd].
      pose proof (ensureGetUserMedia_makes_api_available (nav d))
        as (_ & _ & Hsame).
      rewrite E in Hsame. cbn [fst snd] in Hsame.
      rewrite (Hsame eq_refl). repeat split.
    + intros _ Hok. subst ok. cbn [negb].
      pose proof (ensure_true_modern (nav d)) as Hm.
      rewrite E in Hm. cbn [fst snd] in Hm.
      destruct (Hm eq_refl) as [g Hg].
      exists g. cbn [nav]. rewrite Hg.
      destruct c; cbn; rewrite ?Hg; repeat split.
  - split; [intros _; split; reflexivity |].
    split; discriminate.
Qed.

(** X4. However [startCamera] ends, it leaves the recognition loop alone
    (the flag, the stored handle, the cycles scheduled and in flight).
    Either the camera plays, and then the [draw] canvas has the video's
    native size and is blank and the message is untouched; or the message
    element shows "Camera error: " followed by the reason, as an error,
    with one more timeout of 5000 ms pending to blank it, and the canvas is
    untouched. *)
Theorem startCamera_resizes_or_reports :
  forall (l : location) (c : capture) (d : document) (s : app),
    let s' := snd (startCamera l c d s) in
    recognizing s' = recognizing s
    /\ recogTimer s' = recogTimer s
    /\ inflight s' = inflight s
    /\ pendingCycles s' = pendingCycles s
    /\ ((exists vw vh,
            c = Playing vw vh
            /\ videoWidth s' = vw /\ videoHeight s' = vh
            /\ draw_width (dom s') = vw /\ draw_height (dom s') = vh
            /\ surface (dom s') = []
            /\ message (dom s') = message (dom s)
            /\ timers s' = timers s)
        \/ (exists reason,
              message (dom s') = lit "Camera error: " ++ reason
              /\ messageClass (dom s') = lit "message error"
              /\ timers s'
                 = timers s ++ [{| handle := nextHandle s; delay := 5000;
                                   callback_of := cbClearMessage |}]
              /\ draw_width (dom s') = draw_width (dom s)
              /\ draw_height (dom s') = draw_height (dom s)
              /\ surface (dom s') = surface (dom s))).
Proof.
  intros l c d s s'. subst s'.
  assert (Hfail : forall reason,
             let s' := cameraFailed reason s in
             recognizing s' = recognizing s
             /\ recogTimer s' = recogTimer s
             /\ inflight s' = inflight s
             /\ pendingCycles s' = pendingCycles s
             /\ message (dom s') = lit "Camera error: " ++ reason
             /\ messageClass (dom s') = lit "message error"
             /\ timers s'
                = timers s ++ [{| handle := nextHandle s; delay := 5000;
                                  callback_of := cbClearMessage |}]
             /\ draw_width (dom s') = draw_width (dom s)
             /\ draw_height (dom s') = draw_height (dom s)
             /\ surface (dom s') = surface (dom s)).
  { intro reason. unfold cameraFailed, showMessage. cbn.
    repeat split. unfold pendingCycles. cbn.
    rewrite filter_app. cbn. now rewrite app_nil_r. }
  assert (Hreport : forall reason,
             let s' := cameraFailed reason s in
             recognizing s' = recognizing s
             /\ recogTimer s' = recogTimer s
             /\ inflight s' = inflight s
             /\ pendingCycles s' = pendingCycles s
             /\ ((exists vw vh,
                     c = Playing vw vh
                     /\ videoWidth s' = vw /\ videoHeight s' = vh
                     /\ draw_width (dom s') = vw /\ draw_height (dom s') = vh
                     /\ surface (dom s') = []
                     /\ message (dom s') = message (dom s)
                     /\ timers s' = timers s)
                 \/ (exists r,
                       message (dom s') = lit "Camera error: " ++ r
                       /\ messageClass (dom s') = lit "message error"
                       /\ timers s'
                          = timers s
                            ++ [{| handle := nextHandle s; delay := 5000;
                                   callback_of := cbClearMessage |}]
                       /\ draw_width (dom s') = draw_width (dom s)
                       /\ draw_height (dom s') = draw_height (dom s)
                       /\ surface (dom s') = surface (dom s)))).
  { intro reason. destruct (Hfail reason) as (A & B & C & D & E).
    repeat split; auto. right. now exists reason. }
  unfold startCamera.
  destruct (negb (isSecure l)); [apply Hreport |].
  pose proof (ensure_true_modern (nav d)) as Hm.
  destruct (ensureGetUserMedia (nav d)) as [ok nav'].
  cbn [fst snd] in Hm.
  destruct ok; cbn [negb]; [| apply Hreport].
  destruct (Hm eq_refl) as [g Hg]. cbn [nav]. rewrite Hg.
  destruct c as [msg | msg | vw vh]; cbn [snd]; try apply Hreport.
  repeat split. left. exists vw, vh. repeat split.
Qed.

End CameraOutcome.

(** ** More on the polling loop *)

Section LoopMore.

Import Props.

Variable measureText : Z -> jsstring -> Q.
Variable toFixed3 : Q -> jsstring.
Variable toLocaleString : jsstring -> jsstring.

Let step := Overlay.step measureText toFixed3 toLocaleString.
Let run := Overlay.run measureText toFixed3 toLocaleString.
Let settle := Overlay.settle measureText toFixed3 toLocaleString.

Lemma filter_fresh_handle (h : nat) (tm : list timer) :
  (forall t, In t tm -> (handle t < h)%nat) ->
  filter (fun t => negb (Nat.eqb (handle t) h)) tm = tm.
Proof.
  induction tm as [| a tm IH]; intro Hlt; cbn; [reflexivity |].
  assert (Ha : (handle a < h)%nat) by (apply Hlt; now left).
  apply Nat.lt_neq, Nat.eqb_neq in Ha. rewrite Ha. cbn.
  f_equal. apply IH. intros t Hin. apply Hlt. now right.
Qed.

(** X5. In every state the page can reach, a camera error puts its text
    in the message element, and the expiry of the timeout armed with it
    blanks the element and resets its class; the two steps together leave
    the pending timeouts, the recognition loop, the side panel and the
    surface as they were. *)
Theorem camera_error_message_expires :
  forall (markup : page) (evs : list event) (s : app) (reason : jsstring),
    run (boot markup) evs = Some s ->
    exists s1 s2,
      step s (CameraFailed reason) = Some s1
      /\ message (dom s1) = lit "Camera error: " ++ reason
      /\ step s1 (Fire (nextHandle s)) = Some s2
      /\ message (dom s2) = []
      /\ messageClass (dom s2) = lit "message"
      /\ timers s2 = timers s
      /\ recognizing s2 = recognizing s
      /\ recogTimer s2 = recogTimer s
      /\ inflight s2 = inflight s
      /\ currentName (dom s2) = currentName (dom s)
      /\ surface (dom s2) = surface (dom s).
Proof.
  intros markup evs s reason Hrun.
  pose proof (run_fresh measureText toFixed3 toLocaleString evs _ _
                (boot_fresh markup) Hrun) as (_ & Hlt & _ & _).
  set (t := {| handle := nextHandle s; delay := 5000;
               callback_of := cbClearMessage |}).
  exists (cameraFailed reason s). eexists.
  split; [reflexivity |]. split; [reflexivity |].
  assert (Etm : timers (cameraFailed reason s) = timers s ++ [t])
    by reflexivity.
  assert (Efind : find (fun t0 => Nat.eqb (handle t0) (nextHandle s))
                    (timers (cameraFailed reason s)) = Some t).
  { rewrite Etm. exact (find_fresh_handle (timers s) t Hlt). }
  split.
  { unfold step, Overlay.step. rewrite Efind. reflexivity. }
  cbn [callback_of t]. unfold clearMessage, clearTimeout.
  cbn [dom with_dom with_timers message messageClass set_message timers
       recognizing recogTimer inflight currentName surface].
  repeat split.
  rewrite Etm, filter_app, (filter_fresh_handle _ _ Hlt).
  cbn. rewrite Nat.eqb_refl. cbn. apply app_nil_r.
Qed.

Lemma settle_live (o : outcome) (now : jsstring) (s : app) :
  live (settle o now s) = S (live s).
Proof.
  destruct (settle_shape measureText toFixed3 toLocaleString o now s)
    as (Et & _ & _ & Ei & _ & _).
  unfold live, pendingCycles. fold settle in Et, Ei. rewrite Et, Ei.
  rewrite filter_app, length_app. cbn. lia.
Qed.

(** X6. Only a click that switches recognition on adds a cycle: it adds
    exactly one to the cycles scheduled or in flight, and no other event
    ever increases their number.  While recognition is off, the expiry of
    a timeout scheduled for [loopRecognize] removes a cycle for good. *)
Theorem only_switching_on_adds_a_cycle :
  forall (s s' : app) (e : event),
    step s e = Some s' ->
    (e = Click -> recognizing s = false -> live s' = S (live s))
    /\ (e = Click -> recognizing s = true ->
        (live s' <= live s)%nat /\ inflight s' = inflight s)
    /\ (e <> Click -> (live s' <= live s)%nat)
    /\ (forall h t,
          e = Fire h ->
          find (fun t0 => Nat.eqb (handle t0) h) (timers s) = Some t ->
          isCycle t = true -> recognizing s = false ->
          (live s' < live s)%nat /\ inflight s' = inflight s).
Proof.
  intros s s' e Hstep.
  destruct e as [| h | o now | vw vh | reason | vw vh]; cbn in Hstep.
  - (* Click *)
    inversion Hstep; subst s'; clear Hstep.
    unfold onToggleClick, loopRecognize, live, pendingCycles. cbn.
    split; [| split; [| split]].
    + intros _ Hrec. rewrite Hrec. cbn. lia.
    + intros _ Hrec. rewrite Hrec. cbn.
      destruct (recogTimer s) as [[| k] |]; cbn; split; try lia;
        try reflexivity.
      pose proof (filter_cycles_le
                    (fun t => negb (Nat.eqb (handle t) (S k))) (timers s)).
      lia.
    + intro Hne. now elim Hne.
    + intros h t Hfire. discriminate Hfire.
  - (* Fire *)
    destruct (find _ (timers s)) as [t |] eqn:Hfind; [| discriminate].
    inversion Hstep; subst s'; clear Hstep.
    pose proof (find_some _ _ Hfind) as [Hin Hh].
    pose proof (filter_cycles_le (fun t => negb (Nat.eqb (handle t) h))
                  (timers s)) as Hle.
    assert (Hlt : callback_of t = cbLoopRecognize ->
                  (List.length
                     (filter isCycle
                        (filter (fun t => negb (Nat.eqb (handle t) h))
                           (timers s)))
                   < List.length (filter isCycle (timers s)))%nat).
    { intro Hc. apply (filter_cycles_lt _ _ t Hin).
      - unfold isCycle. now rewrite Hc.
      - now rewrite Hh. }
    split; [discriminate |]. split; [discriminate |].
    split.
    + intros _.
      destruct (callback_of t); unfold loopRecognize, clearMessage, live,
        pendingCycles; cbn.
      * specialize (Hlt eq_refl).
        destruct (recognizing s); cbn; lia.
      * lia.
    + intros h0 t0 Eh Hf0 Hc Hrec. inversion Eh; subst h0.
      rewrite Hfind in Hf0. inversion Hf0; subst t0.
      unfold isCycle in Hc.
      destruct (callback_of t); [| discriminate].
      specialize (Hlt eq_refl).
      unfold loopRecognize, live, pendingCycles. cbn. rewrite Hrec. cbn.
      split; [lia | reflexivity].
  - (* Complete *)
    destruct (inflight s) as [| n] eqn:Hinf; [discriminate |].
    inversion Hstep; subst s'; clear Hstep.
    split; [discriminate |]. split; [discriminate |].
    split; [| discriminate].
    intros _.
    change (live (settle o now (with_inflight n s)) <= live s)%nat.
    rewrite settle_live.
    unfold live, pendingCycles. cbn. rewrite Hinf. lia.
  - (* CameraStarted *)
    inversion Hstep; subst s'.
    split; [discriminate |]. split; [discriminate |].
    split; [| discriminate].
    intros _. unfold live, pendingCycles, cameraStarted. cbn. lia.
  - (* CameraFailed *)
    inversion Hstep; subst s'; clear Hstep.
    split; [discriminate |]. split; [discriminate |].
    split; [| discriminate].
    intros _.
    unfold cameraFailed, showMessage, live, pendingCycles. cbn.
    rewrite filter_app. cbn. rewrite app_nil_r. lia.
  - (* VideoResized *)
    inversion Hstep; subst s'.
    split; [discriminate |]. split; [discriminate |].
    split; [| discriminate].
    intros _. unfold live, pendingCycles. cbn. lia.
Qed.

End LoopMore.

Lemma camera_error_message_expires_witness :
  Sample.run (boot Sample.markup) [Click] = Some (onToggleClick (boot Sample.markup))
  /\ exists s1 s2,
      Sample.step (onToggleClick (boot Sample.markup))
        (CameraFailed (lit "Permission denied")) = Some s1
      /\ message (dom s1) = lit "Camera error: Permission denied"
      /\ Sample.step s1 (Fire 1) = Some s2
      /\ message (dom s2) = [].
Proof.
  assert (Hrun : Sample.run (boot Sample.markup) [Click]
                 = Some (onToggleClick (boot Sample.markup)))
    by reflexivity.
  split; [exact Hrun |].
  destruct (camera_error_message_expires Sample.measureText Sample.toFixed3
              Sample.toLocaleString Sample.markup [Click] _
              (lit "Permission denied") Hrun)
    as (s1 & s2 & H1 & Hm1 & H2 & Hm2 & _).
  exists s1, s2. repeat split; assumption.
Defined.

Lemma only_switching_on_adds_a_cycle_witness :
  Sample.step (boot Sample.markup) Click
  = Some (onToggleClick (boot Sample.markup))
  /\ Props.live (onToggleClick (boot Sample.markup))
     = S (Props.live (boot Sample.markup)).
Proof.
  assert (Hstep : Sample.step (boot Sample.markup) Click
                  = Some (onToggleClick (boot Sample.markup)))
    by reflexivity.
  split; [exact Hstep |].
  exact (proj1 (only_switching_on_adds_a_cycle Sample.measureText
                  Sample.toFixed3 Sample.toLocaleString _ _ _ Hstep)
           eq_refl eq_refl).
Defined.

(** ** More on the overlay renderer *)

Section RendererMore.

Import Props.

Variable measureText : Z -> jsstring -> Q.
Variable toFixed3 : Q -> jsstring.
Variable toLocaleString : jsstring -> jsstring.

Let drawResult := Overlay.drawResult measureText.
Let drawResults := Overlay.drawResults measureText.
Let render := Overlay.render measureText toFixed3 toLocaleString.






Lemma render_blank (vw vh : Z) (now : jsstring) (data : recognizeData)
  (p : page) :
  results data = None \/ results data = Some [] ->
  surface (render vw vh now data p) = []
  /\ draw_width (render vw vh now data p) = draw_width p
  /\ draw_height (render vw vh now data p) = draw_height p.
Proof.
  unfold render, Overlay.render.
  intros [-> | ->]; repeat split.
Qed.




(** X9. When the response carries no usable [image_size], the video's own
    size stands in for it and boxes are drawn unscaled: on a video of
    non-zero size, a box with integer corners (a, b) and (c, d), with
    0 <= a <= c and 0 <= b <= d, is stroked at (a, b) with width c - a and
    height d - b. *)
Theorem missing_image_size_draws_unscaled :
  forall (vw vh : Z) (now : jsstring) (r : result) (a b c d : Z) (p : page),
    vw <> 0 -> vh <> 0 -> 0 <= a <= c -> 0 <= b <= d ->
    bbox r = BboxArray [inject_Z a; inject_Z b; inject_Z c; inject_Z d] ->
    exists label,
      surface (render vw vh now
                 {| results := Some [r]; image_size := None |} p)
      = strokeRect (stroke r) (lineWidth vw vh) a b (c - a) (d - b) :: label.
Proof.
  intros vw vh now r a b c d p Hvw Hvh Hac Hbd Hb.
  assert (Hone : forall (n v : Z), v <> 0 ->
            Math_floor (inject_Z n * (inject_Z v / inject_Z v))%Q = n).
  { intros n v Hv. unfold Math_floor. rewrite <- (Qfloor_Z n) at 2.
    apply Qfloor_comp. field. intro E.
    apply Hv. unfold Qeq in E. cbn in E. lia. }
  unfold render.
  rewrite (render_surface measureText toFixed3 toLocaleString).
  unfold Overlay.drawResults, flat_map, Overlay.drawResult.
  rewrite Hb, app_nil_r. eexists.
  unfold mapBox. cbn [Overlay.x1 Overlay.y1 Overlay.w Overlay.h].
  rewrite !Hone by assumption.
  replace (Z.max 0 a) with a by lia.
  replace (Z.max 0 b) with b by lia.
  replace (Z.max 0 c) with c by lia.
  replace (Z.max 0 d) with d by lia.
  replace (Z.max 0 (c - a)) with (c - a) by lia.
  replace (Z.max 0 (d - b)) with (d - b) by lia.
  reflexivity.
Qed.

Lemma render_canvas_size (vw vh : Z) (now : jsstring) (r0 : result)
  (rs : list result) (sz : option (Q * Q)) (p : page) :
  let q := render vw vh now
             {| results := Some (r0 :: rs); image_size := sz |} p in
  draw_width q = vw /\ draw_height q = vh.
Proof.
  unfold render, Overlay.render. cbn [results image_size].
  set (q := if negb (draw_width (clearRect p) =? vw)
               || negb (draw_height (clearRect p) =? vh)
            then resize vw vh (clearRect p) else clearRect p).
  assert (Hq : draw_width q = vw /\ draw_height q = vh).
  { subst q. cbn [clearRect set_surface draw_width draw_height].
    destruct (draw_width p =? vw) eqn:Ew; destruct (draw_height p =? vh) eqn:Eh;
      cbn; auto.
    apply Z.eqb_eq in Ew, Eh. auto. }
  destruct (showFirst_canvas toFixed3 toLocaleString now (firstMatch r0 rs) q)
    as (Fw & Fh & _).
  destruct sz as [[sw sh] |]; cbn [draw_width draw_height set_surface];
    rewrite Fw, Fh; exact Hq.
Qed.

(** X10. Nothing is ever drawn on a canvas of the wrong size: whenever a
    cycle leaves anything on the surface, and in fact whenever the result
    list is not empty, the [draw] canvas has the video's current native
    width and height.  A cycle without results leaves the canvas size
    alone. *)
Theorem drawing_canvas_has_video_size :
  forall (vw vh : Z) (now : jsstring) (data : recognizeData) (p : page),
    let q := render vw vh now data p in
    (surface q <> [] -> draw_width q = vw /\ draw_height q = vh)
    /\ (forall r0 rs, results data = Some (r0 :: rs) ->
        draw_width q = vw /\ draw_height q = vh)
    /\ (results data = None \/ results data = Some [] ->
        surface q = []
        /\ draw_width q = draw_width p /\ draw_height q = draw_height p).
Proof.
  intros vw vh now data p q. subst q.
  assert (Hsome : forall r0 rs, results data = Some (r0 :: rs) ->
            draw_width (render vw vh now data p) = vw
            /\ draw_height (render vw vh now data p) = vh).
  { intros r0 rs E. destruct data as [res sz]. cbn in E. subst res.
    apply render_canvas_size. }
  split; [| split; [exact Hsome | apply render_blank]].
  intro Hne. destruct (results data) as [[| r0 rs] |] eqn:E.
  - elim Hne. apply render_blank. now right.
  - now apply (Hsome r0 rs).
  - elim Hne. apply render_blank. now left.
Qed.

Lemma strokesOf_drawResult (drawW lw : Z) (sx sy : Q) (r : result) :
  strokesOf (drawResult drawW lw sx sy r)
  = (if hasBox r then [stroke r] else [])
  /\ List.length (drawResult drawW lw sx sy r)
     = (if hasBox r then 3 else 0)%nat.
Proof.
  unfold drawResult, Overlay.drawResult, hasBox.
  destruct (bbox r) as [| | coords]; try (split; reflexivity).
  destruct coords as [| a [| b [| c [| d [| e coords]]]]];
    split; reflexivity.
Qed.

Lemma strokesOf_app (a b : list drawop) :
  strokesOf (a ++ b) = strokesOf a ++ strokesOf b.
Proof. unfold strokesOf. apply flat_map_app. Qed.

(** X11. Each result with a 4-element box is drawn exactly once, in the
    order of the list: the strokes on the surface are the stroke colours
    of those results, in order, and the surface holds three calls (the
    rectangle, the label background, the label text) for each of them. *)
Theorem each_boxed_result_drawn_once_in_order :
  forall (vw vh : Z) (now : jsstring) (rl : list result)
         (sz : option (Q * Q)) (p : page),
    let q := render vw vh now {| results := Some rl; image_size := sz |} p in
    strokesOf (surface q) = map stroke (filter hasBox rl)
    /\ List.length (surface q) = (3 * List.length (filter hasBox rl))%nat.
Proof.
  intros vw vh now rl sz p q. subst q.
  assert (Hall : forall drawW lw sx sy (l : list result),
            strokesOf (drawResults drawW lw sx sy l)
            = map stroke (filter hasBox l)
            /\ List.length (drawResults drawW lw sx sy l)
               = (3 * List.length (filter hasBox l))%nat).
  { intros drawW lw sx sy l.
    unfold drawResults, Overlay.drawResults.
    induction l as [| r l [IHs IHl]]; [split; reflexivity |].
    cbn [flat_map filter].
    rewrite strokesOf_app, length_app, IHs, IHl.
    destruct (strokesOf_drawResult drawW lw sx sy r) as [Es El].
    unfold drawResult in Es, El. rewrite Es, El.
    destruct (hasBox r); cbn [map List.length List.app]; split;
      try reflexivity; lia. }
  destruct rl as [| r0 rs].
  - split; reflexivity.
  - unfold render.
    rewrite (render_surface measureText toFixed3 toLocaleString).
    apply Hall.
Qed.

End RendererMore.


Lemma missing_image_size_draws_unscaled_witness :
  1280 <> 0 /\ 960 <> 0 /\ 0 <= 10 <= 110 /\ 0 <= 20 <= 140
  /\ exists label,
      surface (Sample.render 1280 960 (lit "0")
                 {| results := Some [Sample.guest]; image_size := None |}
                 Sample.markup)
      = strokeRect (hsl 0 0 75) 3 10 20 100 120 :: label.
Proof.
  assert (H1 : 1280 <> 0) by discriminate.
  assert (H2 : 960 <> 0) by discriminate.
  assert (H3 : 0 <= 10 <= 110) by lia.
  assert (H4 : 0 <= 20 <= 140) by lia.
  repeat (split; [assumption |]).
  exact (missing_image_size_draws_unscaled Sample.measureText
           Sample.toFixed3 Sample.toLocaleString 1280 960 (lit "0")
           Sample.guest 10 20 110 140 Sample.markup H1 H2 H3 H4 eq_refl).
Defined.

(** ** More on the identity key *)

Section IdentityKey.

Import Props.

Lemma split_at_bar (n1 : jsstring) :
  forall (n2 p1 p2 : jsstring),
    ~ In bar n1 -> ~ In bar n2 ->
    n1 ++ bar :: p1 = n2 ++ bar :: p2 -> n1 = n2 /\ p1 = p2.
Proof.
  induction n1 as [| c n1 IH]; intros [| c2 n2] p1 p2 H1 H2 E; cbn in E.
  - inversion E. auto.
  - inversion E; subst c2. elim H2. now left.
  - inversion E; subst c. elim H1. now left.
  - inversion E; subst c2.
    destruct (IH n2 p1 p2) as [-> ->]; auto.
    + intro Hin. apply H1. now right.
    + intro Hin. apply H2. now right.
Qed.

(** X12. For names that do not contain the delimiter "|", the identity
    key tells identities apart: two results have the same key exactly when
    they have the same name and the same personnel identifier (a missing
    identifier counting as the empty one).  Results of one identity that
    are both recognized are therefore stroked in the same colour, whatever
    their scores and boxes. *)
Theorem identityKey_separates_identities :
  forall r1 r2 : result,
    ~ In bar (name r1) -> ~ In bar (name r2) ->
    (identityKey r1 = identityKey r2
     <-> name r1 = name r2
         /\ orEmpty (personnel_id r1) = orEmpty (personnel_id r2))
    /\ (name r1 = name r2 ->
        orEmpty (personnel_id r1) = orEmpty (personnel_id r2) ->
        recognized r1 = recognized r2 -> stroke r1 = stroke r2).
Proof.
  intros r1 r2 H1 H2.
  assert (Hiff : identityKey r1 = identityKey r2
                 <-> name r1 = name r2
                     /\ orEmpty (personnel_id r1)
                        = orEmpty (personnel_id r2)).
  { unfold identityKey. change (lit "|") with [bar]. cbn [List.app].
    split.
    - now apply split_at_bar.
    - intros [-> ->]. reflexivity. }
  split; [exact Hiff |].
  intros En Ep Er. unfold stroke. rewrite Er.
  destruct (recognized r2); [| reflexivity].
  f_equal. apply Hiff. now split.
Qed.

End IdentityKey.

Lemma identityKey_separates_identities_witness :
  ~ In Props.bar (name Sample.alice) /\ ~ In Props.bar (name Sample.guest)
  /\ identityKey Sample.alice <> identityKey Sample.guest.
Proof.
  assert (H1 : ~ In Props.bar (name Sample.alice))
    by (cbn; intuition discriminate).
  assert (H2 : ~ In Props.bar (name Sample.guest))
    by (cbn; intuition discriminate).
  split; [exact H1 |]. split; [exact H2 |].
  intro E.
  destruct (proj1 (proj1 (identityKey_separates_identities
                            Sample.alice Sample.guest H1 H2)) E)
    as [En _].
  discriminate En.
Defined.

(** ** The single-match page against the multi-result page *)

Section SingleMatch.

Import Props.

Variable measureText : Z -> jsstring -> Q.
Variable toFixed3 : Q -> jsstring.
Variable toLocaleString : jsstring -> jsstring.

Let render1 := Single.render measureText toFixed3 toLocaleString.
Let render := Overlay.render measureText toFixed3 toLocaleString.

(** X13. For a recognized match that has a score, a 4-element box and no
    personnel identifier, the single-match page leaves the page exactly as
    the multi-result page does for the one-element result list, except
    that the rectangle is stroked green instead of in the identity's
    colour: same side panel, same canvas size, same rectangle, same label
    at the same place. *)
Theorem single_match_agrees_with_one_element_list :
  forall (vw vh : Z) (now : jsstring) (d : result) (sz : option (Q * Q))
         (p : page),
    recognized d = true -> score d <> None ->
    truthy (personnel_id d) = false -> hasBox d = true ->
    render1 vw vh now {| Single.best := d; Single.size := sz |} p
    = repaint (render vw vh now
                 {| results := Some [d]; image_size := sz |} p).
Proof.
  intros vw vh now d sz p Hrec Hscore Hpid Hbox.
  assert (Hlabel : labelOf d = name d)
    by (unfold labelOf; rewrite Hpid; apply app_nil_r).
  unfold hasBox in Hbox.
  destruct (bbox d) as [| | [| a [| b [| c [| e [| f coords]]]]]] eqn:Eb;
    try discriminate.
  destruct (score d) as [sc |] eqn:Esc; [| congruence].
  unfold render1, render, Single.render, Overlay.render, repaint, firstMatch.
  cbn [Single.best Single.size results image_size find].
  rewrite Hrec, Esc.
  unfold Single.drawMatch, drawResults, drawResult, showFirst,
    Single.showThumb.
  cbn [Single.best Single.size flat_map].
  rewrite Eb, Esc, Hpid, Hlabel.
  destruct sz as [[sw sh] |];
    destruct (face_image_url d) as [[| u url] |];
    cbn [toggleText currentName currentScore message messageClass
         thumbWrap lastFace lastFaceTime draw_width draw_height surface
         set_current set_thumbWrap set_lastFace set_lastFaceTime
         set_surface clearRect resize];
    destruct (lastFaceTime p) eqn:Elt;
    destruct (recognized_at d) as [[| t at_] |];
    destruct (draw_width p =? vw) eqn:Ew;
    destruct (draw_height p =? vh) eqn:Eh;
    cbn [toggleText currentName currentScore message messageClass
         thumbWrap lastFace lastFaceTime draw_width draw_height surface
         set_current set_thumbWrap set_lastFace set_lastFaceTime
         set_surface clearRect resize List.app map green];
    rewrite ?Elt, ?Ew, ?Eh, ?app_nil_r;
    cbn [toggleText currentName currentScore message messageClass
         thumbWrap lastFace lastFaceTime draw_width draw_height surface
         set_current set_thumbWrap set_lastFace set_lastFaceTime
         set_surface clearRect resize List.app map green negb orb];
    rewrite ?Elt, ?Ew, ?Eh;
    reflexivity.
Qed.

(** X14. On the single-match page a recognized match without a score
    stops the cycle at the score line: the name is already shown, but the
    score text of the previous cycle stays, the thumbnail is not updated,
    the canvas keeps its size and nothing is drawn on the cleared surface,
    whatever box the match has.  The multi-result page guards the same
    case: it empties the score text. *)
Theorem single_match_without_score_stops_after_name :
  forall (vw vh : Z) (now : jsstring) (d : result) (sz : option (Q * Q))
         (p : page),
    recognized d = true -> score d = None ->
    let q := render1 vw vh now {| Single.best := d; Single.size := sz |} p in
    currentName q = name d
    /\ currentScore q = currentScore p
    /\ surface q = []
    /\ thumbWrap q = thumbWrap p
    /\ lastFace q = lastFace p
    /\ lastFaceTime q = lastFaceTime p
    /\ draw_width q = draw_width p
    /\ draw_height q = draw_height p
    /\ currentScore (render vw vh now
                       {| results := Some [d]; image_size := sz |} p) = [].
Proof.
  intros vw vh now d sz p Hrec Hscore q. subst q.
  assert (Hmulti : currentScore
                     (render vw vh now
                        {| results := Some [d]; image_size := sz |} p) = []).
  { pose proof (render_current measureText toFixed3 toLocaleString
                  vw vh now d [] sz p) as [_ Hsc].
    cbv zeta in Hsc. unfold render. rewrite Hsc.
    unfold firstMatch. cbn [find]. rewrite Hrec, Hscore. reflexivity. }
  unfold render1, Single.render. cbn [Single.best Single.size].
  rewrite Hrec, Hscore.
  repeat (split; [reflexivity |]). exact Hmulti.
Qed.

End SingleMatch.

Lemma single_match_agrees_with_one_element_list_witness :
  recognized More.bob = true /\ score More.bob <> None
  /\ truthy (personnel_id More.bob) = false /\ Props.hasBox More.bob = true
  /\ Single.render Sample.measureText Sample.toFixed3 Sample.toLocaleString
       320 240 (lit "0")
       {| Single.best := More.bob; Single.size := None |} Sample.markup
     = Props.repaint
         (Sample.render 320 240 (lit "0")
            {| results := Some [More.bob]; image_size := None |}
            Sample.markup).
Proof.
  assert (H1 : recognized More.bob = true) by reflexivity.
  assert (H2 : score More.bob <> None) by discriminate.
  assert (H3 : truthy (personnel_id More.bob) = false) by reflexivity.
  assert (H4 : Props.hasBox More.bob = true) by reflexivity.
  split; [exact H1 |]. split; [exact H2 |]. split; [exact H3 |].
  split; [exact H4 |].
  exact (single_match_agrees_with_one_element_list Sample.measureText
           Sample.toFixed3 Sample.toLocaleString 320 240 (lit "0")
           More.bob None Sample.markup H1 H2 H3 H4).
Defined.

Lemma single_match_without_score_stops_after_name_witness :
  recognized More.unscored = true /\ score More.unscored = None
  /\ surface (Single.render Sample.measureText Sample.toFixed3
                Sample.toLocaleString 320 240 (lit "0")
                {| Single.best := More.unscored; Single.size := None |}
                Sample.markup) = [].
Proof.
  assert (H1 : recognized More.unscored = true) by reflexivity.
  assert (H2 : score More.unscored = None) by reflexivity.
  split; [exact H1 |]. split; [exact H2 |].
  exact (proj1 (proj2 (proj2
           (single_match_without_score_stops_after_name Sample.measureText
              Sample.toFixed3 Sample.toLocaleString 320 240 (lit "0")
              More.unscored None Sample.markup H1 H2)))).
Defined.

(** ** More on the registration form *)

Section RegistrationMore.

Import Register Props.

Lemma trimStart_head (s : jsstring) :
  forall c rest, trimStart s = c :: rest -> isWhiteSpace c = false.
Proof.
  induction s as [| a s IH]; intros c rest E; cbn in E; [discriminate |].
  destruct (isWhiteSpace a) eqn:Ha.
  - now apply (IH c rest).
  - now inversion E; subst.
Qed.

Lemma trimStart_suffix (s : jsstring) :
  exists pre, s = pre ++ trimStart s.
Proof.
  induction s as [| a s [pre IH]]; cbn.
  - now exists [].
  - destruct (isWhiteSpace a).
    + exists (a :: pre). cbn. now f_equal.
    + now exists [].
Qed.

(** [trim] leaves no white space at either end. *)
Lemma trim_trimmed (s : jsstring) : trimmed (trim s).
Proof.
  unfold trim. set (t := trimStart s). set (u := trimStart (rev t)).
  split.
  - intros c rest E.
    assert (Eu : u = rev rest ++ [c]).
    { rewrite <- (rev_involutive u), E. reflexivity. }
    destruct (trimStart_suffix (rev t)) as [pre Ht]. fold u in Ht.
    assert (Et : t = c :: rev (pre ++ rev rest)).
    { rewrite <- (rev_involutive t), Ht, Eu, app_assoc, rev_app_distr.
      reflexivity. }
    exact (trimStart_head s c _ Et).
  - intros pre c E.
    assert (Eu : u = c :: rev pre).
    { rewrite <- (rev_involutive u), E, rev_app_distr. reflexivity. }
    exact (trimStart_head (rev t) c _ Eu).
Qed.


(** X16. The two inputs are emptied exactly when a request was sent and
    the server answered with a 2xx status, and the message then reads
    "Registered successfully" without the error class; in every other
    case (empty name, rejected fetch, error status) both inputs keep
    their contents and the message carries the error class.  A rejected
    fetch shows the message of its error. *)
Theorem register_inputs_cleared_only_on_success :
  forall (answer : reply) (f : form),
    let f' := onRegisterClick answer f in
    (filled (trim (nameInput f)) && answeredOk answer = true ->
     nameInput f' = [] /\ personnelIdInput f' = []
     /\ Register.message f' = lit "Registered successfully"
     /\ Register.messageClass f' = lit "message ")
    /\ (filled (trim (nameInput f)) && answeredOk answer = false ->
        nameInput f' = nameInput f
        /\ personnelIdInput f' = personnelIdInput f
        /\ Register.messageClass f' = lit "message error")
    /\ (forall msg, trim (nameInput f) <> [] -> answer = Rejected msg ->
        Register.message f' = msg).
Proof.
  intros answer f f'. subst f'. unfold onRegisterClick, answeredOk, filled.
  destruct (trim (nameInput f)) as [| c nm]; cbn [andb].
  - split; [discriminate |]. split; [| congruence]. intros _. repeat split.
  - destruct answer as [msg | [|] b]; cbn.
    + split; [discriminate |]. split; [intros _; repeat split |].
      intros msg' _ E. now inversion E.
    + split; [intros _; repeat split |]. split; [discriminate |].
      intros msg' _ E. discriminate E.
    + split; [discriminate |]. split; [intros _; repeat split |].
      intros msg' _ E. discriminate E.
Qed.

(** X17. A message the handler shows is always scheduled for dismissal:
    exactly one timeout of 5000 ms is added whenever the message shown is
    not empty, and none otherwise.  The message is empty only when fetch
    rejected with an error whose message is empty. *)
Theorem register_message_is_transient :
  forall (answer : reply) (f : form),
    let f' := onRegisterClick answer f in
    timeouts f'
    = (match Register.message f' with
       | [] => timeouts f
       | _ :: _ => timeouts f ++ [5000]
       end)
    /\ (Register.message f' = [] ->
        trim (nameInput f) <> [] /\ answer = Rejected []).
Proof.
  intros answer f f'. subst f'. unfold onRegisterClick.
  destruct (trim (nameInput f)) as [| c nm].
  - split; [reflexivity | discriminate].
  - destruct answer as [[| m msg] | [|] b]; cbn.
    + split; [reflexivity |]. intros _. split; [discriminate | reflexivity].
    + split; [reflexivity | discriminate].
    + split; [reflexivity | discriminate].
    + unfold orElse. destruct (detailOf b) as [[| d dt] |]; cbn;
        (split; [reflexivity | discriminate]).
Qed.

End RegistrationMore.

(** ** The list, registration and clearing on the single-match page *)

Section HomePage.

Import Register Home Props.

(** X18. Refreshing the list sends one GET to /api/faces and never
    touches the message or the name input.  When the round-trip fails the
    list stays as it was, without any notice; when the parsed body has no
    [faces] the list is emptied; otherwise the list is replaced by one
    item per face, in the order of the response, whatever it held
    before. *)
Theorem refresh_replaces_list_or_fails_silently :
  forall (r : facesReply) (h : home),
    let h' := refreshFacesList r h in
    sent h' = sent h ++ [facesRequest]
    /\ Home.message h' = Home.message h
    /\ Home.messageClass h' = Home.messageClass h
    /\ Home.timeouts h' = Home.timeouts h
    /\ Home.nameInput h' = Home.nameInput h
    /\ (r = FacesFailed -> facesList h' = facesList h)
    /\ (forall faces, r = FacesBody faces ->
        facesList h' = listed faces
        /\ List.length (facesList h')
           = match faces with Some l => List.length l | None => 0%nat end).
Proof.
  intros r h h'. subst h'. unfold refreshFacesList.
  destruct r as [| faces]; cbn;
    do 5 (split; [reflexivity |]); (split; [| intros faces' E]).
  - reflexivity.
  - discriminate E.
  - discriminate.
  - inversion E; subst faces'.
    destruct faces as [l |]; cbn; split; try reflexivity.
    apply length_map.
Qed.

(** X19. Clearing reports success whenever the request to /api/clear
    resolves, whatever its HTTP status and whether or not the refresh of
    the list that follows succeeds: the message then reads "Cleared all
    registered faces" without the error class, after one request to
    /api/clear and one to /api/faces.  Only a rejected fetch is reported
    as "Failed to clear", and then the list is neither refreshed nor
    changed. *)
Theorem clear_reports_success_whenever_fetch_resolves :
  forall (faces : facesReply) (h : home),
    (forall ok : bool,
        let h' := onClearAllClick (ClearResolved ok) faces h in
        Home.message h' = lit "Cleared all registered faces"
        /\ Home.messageClass h' = lit "message "
        /\ sent h' = sent h ++ [clearRequest; facesRequest]
        /\ facesList h' = facesList (refreshFacesList faces h))
    /\ (let h' := onClearAllClick ClearRejected faces h in
        Home.message h' = lit "Failed to clear"
        /\ Home.messageClass h' = lit "message error"
        /\ sent h' = sent h ++ [clearRequest]
        /\ facesList h' = facesList h).
Proof.
  intros faces h. split.
  - intros ok h'. subst h'. unfold onClearAllClick, refreshFacesList.
    destruct faces as [| l]; cbn; rewrite <- app_assoc; repeat split.
  - cbn. repeat split.
Qed.

(** X20. On the single-match page a registration that the server accepts
    with a parsable body empties the name input, shows "Registered
    successfully", shows the thumbnail exactly when the body has a
    non-empty [registered_image_url], and then refreshes the list.  When
    the accepted answer cannot be parsed, the request has been sent all
    the same, but the parse error is shown as an error, the name input is
    kept and the list is not refreshed. *)
Theorem home_registration_accepted :
  forall (now : jsstring) (faces : facesReply) (h : home),
    Home.trimmedName h <> [] ->
    (forall image,
        let h' := Home.onRegisterClick now (Accepted (Json image)) faces h in
        Home.nameInput h' = []
        /\ Home.message h' = lit "Registered successfully"
        /\ Home.messageClass h' = lit "message "
        /\ sent h' = sent h ++ [registration (Home.trimmedName h) [];
                                facesRequest]
        /\ facesList h' = facesList (refreshFacesList faces h)
        /\ Home.thumbWrap h'
           = (if filled (orEmpty image)
              then option_map (fun _ => false) (Home.thumbWrap h)
              else Home.thumbWrap h))
    /\ (forall msg,
          let h' := Home.onRegisterClick now (Accepted (BadJson msg)) faces h in
          Home.nameInput h' = Home.nameInput h
          /\ Home.message h' = msg
          /\ Home.messageClass h' = lit "message error"
          /\ sent h' = sent h ++ [registration (Home.trimmedName h) []]
          /\ facesList h' = facesList h).
Proof.
  intros now faces h Hname.
  unfold Home.onRegisterClick, registration.
  unfold Home.trimmedName in *.
  destruct (trim (Home.nameInput h)) as [| c nm]; [contradiction |].
  split.
  - intros image. cbv zeta. unfold refreshFacesList.
    destruct image as [[| u url] |]; destruct faces as [| l]; cbn;
      rewrite <- app_assoc; repeat split.
  - intros msg. cbn. repeat split.
Qed.

End HomePage.

(** ** The identities page *)

Section IdentitiesPage.

Import Identities Props.

(** What a step can do to the editor: leave the selection and the panel
    alone, close both, or open both. *)
Lemma step_editor (s s' : Identities.page) (e : Identities.event) :
  Identities.step s e = Some s' ->
  (selected s' = selected s /\ editPanelHidden s' = editPanelHidden s)
  \/ (selected s' = None /\ editPanelHidden s' = true)
  \/ (selected s' <> None /\ editPanelHidden s' = false).
Proof.
  intro Hstep.
  destruct e as [| | rec | rec | | | n p | i r |]; cbn in Hstep.
  - inversion Hstep; subst. left. split; reflexivity.
  - inversion Hstep; subst. left. split; reflexivity.
  - inversion Hstep; subst. right. right. split; [discriminate | reflexivity].
  - inversion Hstep; subst. left. split; reflexivity.
  - inversion Hstep; subst. right. left. split; reflexivity.
  - inversion Hstep; subst. left. unfold onSaveClick.
    destruct (selected s) as [sel |] eqn:Es; [| now split].
    destruct (trim (editName s)); cbn; now split.
  - inversion Hstep; subst. left. split; reflexivity.
  - destruct (nth_error (pending s) i) as [o |]; [| discriminate].
    inversion Hstep; subst; clear Hstep.
    destruct o as [k | | |].
    + left. unfold facesSettled.
      destruct r as [msg | ok [| d faces]]; destruct k; split; reflexivity.
    + left. destruct r as [msg | ok b]; split; reflexivity.
    + destruct r as [msg | [|] b].
      * left. split; reflexivity.
      * right. left. split; reflexivity.
      * left. split; reflexivity.
    + left. destruct r as [msg | [|] b]; split; reflexivity.
  - destruct (timers s); [discriminate |].
    inversion Hstep; subst. left. split; reflexivity.
Qed.

(** X21. When the page starts with the edit panel hidden, the panel is
    visible exactly while an identity is selected, through any sequence of
    clicks, typing, answers of the server in any order, and message
    timeouts. *)
Theorem edit_panel_visible_iff_selected :
  forall (markup : Identities.page) (evs : list Identities.event)
         (s : Identities.page),
    editPanelHidden markup = true ->
    Identities.run (Identities.boot markup) evs = Some s ->
    (selected s = None <-> editPanelHidden s = true).
Proof.
  intros markup evs s Hhidden.
  assert (Hinv : forall evs s0 s1,
             (selected s0 = None <-> editPanelHidden s0 = true) ->
             Identities.run s0 evs = Some s1 ->
             (selected s1 = None <-> editPanelHidden s1 = true)).
  { clear. induction evs as [| e evs IH]; intros s0 s1 H0 Hrun;
      cbn in Hrun.
    - now inversion Hrun; subst.
    - destruct (Identities.step s0 e) as [s' |] eqn:Hstep; [| discriminate].
      apply (IH s' s1); [| exact Hrun].
      destruct (step_editor s0 s' e Hstep)
        as [[Es Eh] | [[Es Eh] | [Es Eh]]]; rewrite ?Es, ?Eh.
      + exact H0.
      + split; reflexivity.
      + split; [contradiction | discriminate]. }
  apply Hinv. cbn. rewrite Hhidden. split; reflexivity.
Qed.

(** X22. The save button does nothing at all when no identity is
    selected.  With a selection and a new name that is empty after
    trimming it sends nothing, keeps the editor as it is and shows "New
    name required" as an error.  Otherwise it sends exactly one rename
    request, carrying the selected name and identifier as the old ones
    and the trimmed inputs as the new ones (each identifier only when it
    is not empty), and shows nothing yet. *)
Theorem save_sends_rename_only_for_a_named_selection :
  forall s : Identities.page,
    let s' := onSaveClick s in
    (selected s = None -> s' = s)
    /\ (selected s <> None -> trim (editName s) = [] ->
        sent s' = sent s /\ pending s' = pending s
        /\ selected s' = selected s
        /\ editPanelHidden s' = editPanelHidden s
        /\ editName s' = editName s /\ editPid s' = editPid s
        /\ Identities.message s' = lit "New name required"
        /\ Identities.messageClass s' = lit "message error")
    /\ (forall sel, selected s = Some sel -> trim (editName s) <> [] ->
        sent s'
        = sent s ++ [renameRequest (sel_name sel) (sel_personnel_id sel)
                       (trim (editName s)) (trim (editPid s))]
        /\ pending s' = pending s ++ [Rename]
        /\ selected s' = selected s
        /\ editPanelHidden s' = editPanelHidden s
        /\ Identities.message s' = Identities.message s).
Proof.
  intros s s'. subst s'. unfold onSaveClick, renameRequest.
  destruct (selected s) as [sel |] eqn:Es.
  - split; [discriminate |]. split.
    + intros _ Hn. rewrite Hn. cbn. rewrite Es. repeat split.
    + intros sel' E Hn. inversion E; subst sel'.
      destruct (trim (editName s)) as [| c nm]; [contradiction |].
      cbn. rewrite Es. repeat split.
  - split; [reflexivity |]. split; [intro H; now elim H | discriminate].
Qed.

Lemma optional_truthy (key : string) (v : option jsstring) :
  optional key (if truthy v then v else None) = optional key v.
Proof.
  unfold optional. destruct v as [[| c v] |]; reflexivity.
Qed.

(** X23. Opening the editor on a row and saving without typing asks the
    server to rename the identity to itself, up to trimming: the old name
    and identifier are those of the row, the new name is the row's name
    trimmed, and the new identifier is the row's identifier trimmed, if
    any is left.  For a row whose name and identifier have no white space
    at their ends, the new fields equal the old ones. *)
Theorem edit_then_save_round_trip :
  forall (rec : identity) (s : Identities.page),
    trim (Identities.name rec) <> [] ->
    let s' := onSaveClick (beginEdit rec s) in
    sent s'
    = sent s
      ++ [renameRequest (Identities.name rec) (Identities.personnel_id rec)
            (trim (Identities.name rec))
            (trim (orEmpty (Identities.personnel_id rec)))]
    /\ pending s' = pending s ++ [Rename]
    /\ (trim (Identities.name rec) = Identities.name rec ->
        trim (orEmpty (Identities.personnel_id rec))
        = orEmpty (Identities.personnel_id rec) ->
        sent s'
        = sent s
          ++ [renameRequest (Identities.name rec)
                (Identities.personnel_id rec)
                (Identities.name rec)
                (orEmpty (Identities.personnel_id rec))]).
Proof.
  intros rec s Hname s'. subst s'.
  assert (Hsent : sent (onSaveClick (beginEdit rec s))
                  = sent s
                    ++ [renameRequest (Identities.name rec)
                          (Identities.personnel_id rec)
                          (trim (Identities.name rec))
                          (trim (orEmpty (Identities.personnel_id rec)))]
                  /\ pending (onSaveClick (beginEdit rec s))
                     = pending s ++ [Rename]).
  { unfold onSaveClick, beginEdit, renameRequest.
    cbn [selected set_editor editName editPid sel_name sel_personnel_id].
    destruct (trim (Identities.name rec)) as [| c nm]; [contradiction |].
    cbn [sent pending fetch].
    now rewrite (optional_truthy "old_personnel_id"
                   (Identities.personnel_id rec)). }
  destruct Hsent as [Hsent Hpending].
  split; [exact Hsent |]. split; [exact Hpending |].
  intros En Ep. now rewrite Hsent, En, Ep.
Qed.




(** X27. Message timeouts are never cancelled: after two messages shown
    in a row, two more timeouts are pending, and the first expiry blanks
    the second message and resets the class although a timeout is still
    pending. *)
Theorem stale_timeout_blanks_newer_message :
  forall (t1 t2 : jsstring) (e1 e2 : bool) (s : Identities.page),
    t1 <> [] -> t2 <> [] ->
    let s2 := Identities.showMessage t2 e2 (Identities.showMessage t1 e1 s) in
    Identities.message s2 = t2
    /\ timers s2 = S (S (timers s))
    /\ exists s3,
        Identities.step s2 Expire = Some s3
        /\ Identities.message s3 = []
        /\ Identities.messageClass s3 = lit "message"
        /\ timers s3 = S (timers s).
Proof.
  intros t1 t2 e1 e2 s H1 H2 s2. subst s2.
  destruct t1 as [| c1 t1]; [contradiction |].
  destruct t2 as [| c2 t2]; [contradiction |].
  cbn. repeat split. eexists. repeat split.
Qed.

Lemma run_snoc (evs : list Identities.event) :
  forall (s : Identities.page) (e : Identities.event),
    Identities.run s (evs ++ [e])
    = match Identities.run s evs with
      | Some s' => Identities.step s' e
      | None => None
      end.
Proof.
  induction evs as [| e0 evs IH]; intros s e; cbn.
  - now destruct (Identities.step s e).
  - destruct (Identities.step s e0); [apply IH | reflexivity].
Qed.

Lemma requested_mono (evs : list Identities.event) (e : Identities.event)
  (r : Register.request) :
  requested evs r -> requested (evs ++ [e]) r.
Proof.
  unfold requested.
  intros [H | [H | [(rec & Hin & H) | (rec & n & p & Hin & Hs & H)]]].
  - now left.
  - right. now left.
  - right. right. left. exists rec. split; [| exact H].
    apply in_or_app. now left.
  - right. right. right. exists rec, n, p.
    split; [apply in_or_app; now left |].
    split; [apply in_or_app; now left | exact H].
Qed.

Lemma chosen_mono (evs : list Identities.event) (e : Identities.event)
  (s s' : Identities.page) :
  chosen evs s -> selected s' = selected s \/ selected s' = None ->
  chosen (evs ++ [e]) s'.
Proof.
  intros Hc [E | E] sel Hsel; rewrite E in Hsel; [| discriminate].
  destruct (Hc sel Hsel) as (rec & Hin & H).
  exists rec. split; [apply in_or_app; now left | exact H].
Qed.

Lemma sent_kept (evs : list Identities.event) (e : Identities.event)
  (l : list Register.request) :
  Forall (requested evs) l -> Forall (requested (evs ++ [e])) l.
Proof.
  apply Forall_impl. intro r. apply requested_mono.
Qed.

Lemma sent_grown (evs : list Identities.event) (e : Identities.event)
  (l : list Register.request) (r : Register.request) :
  Forall (requested evs) l -> requested (evs ++ [e]) r ->
  Forall (requested (evs ++ [e])) (l ++ [r]).
Proof.
  intros Hl Hr. apply Forall_app. split.
  - now apply sent_kept.
  - now constructor.
Qed.

Lemma step_requests (evs : list Identities.event) (e : Identities.event)
  (s s' : Identities.page) :
  chosen evs s -> Forall (requested evs) (sent s) ->
  Identities.step s e = Some s' ->
  chosen (evs ++ [e]) s' /\ Forall (requested (evs ++ [e])) (sent s').
Proof.
  intros Hc Hs Hstep.
  assert (Hfaces : requested (evs ++ [e]) (get "/api/faces")) by now left.
  destruct e as [| | rec | rec | | | n p | i r |]; cbn in Hstep.
  - inversion Hstep; subst; clear Hstep. split.
    + apply (chosen_mono _ _ s); [exact Hc | now left].
    + now apply sent_grown.
  - inversion Hstep; subst; clear Hstep. split.
    + apply (chosen_mono _ _ s); [exact Hc | now left].
    + apply sent_grown; [exact Hs |]. right. now left.
  - inversion Hstep; subst; clear Hstep. split.
    + intros sel Hsel. cbn in Hsel. inversion Hsel; subst sel; clear Hsel.
      exists rec. split; [apply in_or_app; right; now left |].
      split; [reflexivity |]. apply optional_truthy.
    + now apply sent_kept.
  - inversion Hstep; subst; clear Hstep. split.
    + apply (chosen_mono _ _ s); [exact Hc | now left].
    + apply sent_grown; [exact Hs |]. right. right. left.
      exists rec. split; [apply in_or_app; right; now left | reflexivity].
  - inversion Hstep; subst; clear Hstep. split.
    + apply (chosen_mono _ _ s); [exact Hc | now right].
    + now apply sent_kept.
  - inversion Hstep; subst; clear Hstep. unfold onSaveClick.
    destruct (selected s) as [sel |] eqn:Esel.
    + destruct (trim (editName s)) as [| c nm] eqn:En.
      * split.
        -- apply (chosen_mono _ _ s); [exact Hc | now left].
        -- now apply sent_kept.
      * split.
        -- apply (chosen_mono _ _ s); [exact Hc | now left].
        -- cbn [sent fetch]. apply sent_grown; [exact Hs |].
           destruct (Hc sel Esel) as (rec & Hin & Hname & Hpid).
           right. right. right.
           exists rec, (c :: nm), (trim (editPid s)).
           split; [apply in_or_app; now left |].
           split; [apply in_or_app; right; now left |].
           split; [unfold renameRequest; now rewrite Hname, Hpid |].
           split; [discriminate |].
           split; [rewrite <- En |]; apply trim_trimmed.
    + split.
      * apply (chosen_mono _ _ s); [exact Hc | now left].
      * now apply sent_kept.
  - inversion Hstep; subst; clear Hstep. split.
    + apply (chosen_mono _ _ s); [exact Hc | now left].
    + now apply sent_kept.
  - destruct (nth_error (pending s) i) as [o |]; [| discriminate].
    inversion Hstep; subst; clear Hstep.
    destruct o as [k | | |].
    + split.
      * apply (chosen_mono _ _ s); [exact Hc |]. left.
        destruct r as [msg | ok [| d faces]], k; reflexivity.
      * replace (sent _) with (sent s)
          by (destruct r as [msg | ok [| d faces]], k; reflexivity).
        now apply sent_kept.
    + destruct r as [msg | ok b]; cbn; split;
        try (apply (chosen_mono _ _ s); [exact Hc | now left]).
      * now apply sent_kept.
      * now apply sent_grown.
    + destruct r as [msg | [|] b]; cbn; split;
        try (apply (chosen_mono _ _ s); [exact Hc | now left]);
        try (apply (chosen_mono _ _ s); [exact Hc | now right]).
      * now apply sent_kept.
      * now apply sent_grown.
      * now apply sent_kept.
    + destruct r as [msg | [|] b]; cbn; split;
        try (apply (chosen_mono _ _ s); [exact Hc | now left]).
      * now apply sent_kept.
      * now apply sent_grown.
      * now apply sent_kept.
  - destruct (timers s); [discriminate |].
    inversion Hstep; subst; clear Hstep. split.
    + apply (chosen_mono _ _ s); [exact Hc | now left].
    + now apply sent_kept.
Qed.

(** X28. Whatever the user does and however the requests settle, the
    identities page only ever sends four kinds of request: the listing
    (GET /api/faces), the clearing (POST /api/clear with no body), the
    deletion of a record whose Delete button was clicked, with its name
    and its identifier if it has one, and, after a click on Save, the
    renaming of a record whose Edit button was clicked, always with a new
    name that is not empty and with no white space at the ends of the new
    name and identifier. *)
Theorem requests_come_from_clicks :
  forall (markup : Identities.page) (evs : list Identities.event)
         (s : Identities.page),
    Identities.run (Identities.boot markup) evs = Some s ->
    Forall (requested evs) (sent s).
Proof.
  intros markup evs.
  enough (H : forall s,
             Identities.run (Identities.boot markup) evs = Some s ->
             chosen evs s /\ Forall (requested evs) (sent s))
    by (intros s Hrun; exact (proj2 (H s Hrun))).
  induction evs as [| e evs IH] using rev_ind; intros s Hrun.
  - cbn in Hrun. inversion Hrun; subst; clear Hrun. split.
    + intros sel Hsel. discriminate Hsel.
    + cbn. constructor; [now left | constructor].
  - rewrite run_snoc in Hrun.
    destruct (Identities.run (Identities.boot markup) evs) as [s0 |];
      [| discriminate].
    destruct (IH s0 eq_refl) as [Hc Hs].
    exact (step_requests evs e s0 s Hc Hs Hrun).
Qed.

End IdentitiesPage.

(** ** Instances of the further properties *)

Section Instances.

Import Identities Props.

Lemma home_registration_accepted_witness :
  Home.trimmedName More.homePage <> []
  /\ Home.nameInput
       (Home.onRegisterClick (lit "1700000000000")
          (Home.Accepted (Home.Json None)) Home.FacesFailed More.homePage)
     = [].
Proof.
  assert (H : Home.trimmedName More.homePage <> [])
    by (vm_compute; discriminate).
  split; [exact H |].
  exact (proj1 (proj1 (home_registration_accepted (lit "1700000000000")
                         Home.FacesFailed More.homePage H) None)).
Defined.

Lemma edit_panel_visible_iff_selected_witness :
  editPanelHidden More.identitiesMarkup = true
  /\ Identities.run (boot More.identitiesMarkup)
       [ClickEdit More.ada; ClickCancel]
     = Some (onCancelClick (beginEdit More.ada (boot More.identitiesMarkup)))
  /\ (selected (onCancelClick
                  (beginEdit More.ada (boot More.identitiesMarkup))) = None
      <-> editPanelHidden
            (onCancelClick
               (beginEdit More.ada (boot More.identitiesMarkup))) = true).
Proof.
  split; [reflexivity |]. split; [reflexivity |].
  exact (edit_panel_visible_iff_selected More.identitiesMarkup
           [ClickEdit More.ada; ClickCancel] _ eq_refl eq_refl).
Defined.

Lemma edit_then_save_round_trip_witness :
  trim (Identities.name More.ada) <> []
  /\ sent (onSaveClick (beginEdit More.ada (boot More.identitiesMarkup)))
     = sent (boot More.identitiesMarkup)
       ++ [renameRequest (lit "Ada") (Some (lit "E7"))
             (trim (lit "Ada")) (trim (lit "E7"))].
Proof.
  assert (H : trim (Identities.name More.ada) <> [])
    by (vm_compute; discriminate).
  split; [exact H |].
  exact (proj1 (edit_then_save_round_trip More.ada
                  (boot More.identitiesMarkup) H)).
Defined.

Lemma stale_timeout_blanks_newer_message_witness :
  lit "Deleted" <> [] /\ lit "Updated" <> []
  /\ exists s3,
      Identities.step
        (Identities.showMessage (lit "Updated") false
           (Identities.showMessage (lit "Deleted") false
              More.identitiesMarkup)) Expire = Some s3
      /\ Identities.message s3 = [].
Proof.
  assert (H1 : lit "Deleted" <> []) by (vm_compute; discriminate).
  assert (H2 : lit "Updated" <> []) by (vm_compute; discriminate).
  split; [exact H1 |]. split; [exact H2 |].
  destruct (stale_timeout_blanks_newer_message (lit "Deleted")
              (lit "Updated") false false More.identitiesMarkup H1 H2)
    as (_ & _ & s3 & Hstep & Hm & _).
  exists s3. split; assumption.
Defined.


Lemma requests_come_from_clicks_witness :
  Identities.run (boot More.identitiesMarkup)
    [ClickEdit More.ada; ClickSave; ClickDelete More.ada]
  = Some (deleteIdentity More.ada
            (onSaveClick (beginEdit More.ada (boot More.identitiesMarkup))))
  /\ Forall (requested [ClickEdit More.ada; ClickSave; ClickDelete More.ada])
       (sent (deleteIdentity More.ada
                (onSaveClick
                   (beginEdit More.ada (boot More.identitiesMarkup))))).
Proof.
  assert (Hrun : Identities.run (boot More.identitiesMarkup)
                   [ClickEdit More.ada; ClickSave; ClickDelete More.ada]
                 = Some (deleteIdentity More.ada
                           (onSaveClick
                              (beginEdit More.ada
                                 (boot More.identitiesMarkup)))))
    by reflexivity.
  split; [exact Hrun |].
  exact (requests_come_from_clicks More.identitiesMarkup _ _ Hrun).
Defined.

End Instances.
